(** * Ostap 3D Bernstein polynomials: a shallow embedding

    The development follows [Ostap/Bernstein3D.h]: the generic tensor
    [Bernstein3D], the fully symmetric [Bernstein3DSym], the partially
    symmetric [Bernstein3DMix] and the non-negative wrapper [Positive3D].

    Conventions.
    - [unsigned short] and [unsigned int] values are integers in [Z];
      [unsigned int] arithmetic wraps modulo 2^32 and is written out with
      [UInt.mul] and [UInt.add].
    - [double] is idealised as a real number ([R]) in the arithmetic of
      the polynomials: those statements are about exact arithmetic.  The
      coordinate transformations, which are plain double arithmetic, are
      given in IEEE 754 binary64 as well (module [Binary64]).
    - [std::vector<double>] is [list R]; a method that mutates [this]
      returns the new object next to its result. *)

From Stdlib Require Import ZArith List Lia Bool Reals Lra Permutation.
From Stdlib Require Import PrimFloat.
From Equations Require Import Equations.
Import ListNotations.

Open Scope Z_scope.

(** ** Machine integers *)

Module UInt.

(** [unsigned int] is 32 bits wide. *)
Definition modulus : Z := 4294967296.

Definition wrap (z : Z) : Z := z mod modulus.

Definition mul (a b : Z) : Z := wrap (a * b).

Definition add (a b : Z) : Z := wrap (a + b).

(** Unsigned division; both operands are non-negative. *)
Definition div (a b : Z) : Z := a / b.

(** The value of [-1] converted to [unsigned int]: the "invalid index"
    sentinel of the [index] functions. *)
Definition minus_one : Z := wrap (-1).

(** Largest [unsigned short]. *)
Definition ushort_max : Z := 65535.

Definition is_ushort (z : Z) : Prop := 0 <= z <= ushort_max.

End UInt.

(** ** Vectors of doubles *)

Module Vec.

(** [v.size()] *)
Definition size (v : list R) : Z := Z.of_nat (length v).

(** [v[k]], used only under the guard [k < v.size()]. *)
Definition get (v : list R) (k : Z) : R := nth (Z.to_nat k) v 0%R.

(** [v[k] = x] *)
Fixpoint set_nat (v : list R) (k : nat) (x : R) : list R :=
  match v, k with
  | [], _ => []
  | _ :: t, O => x :: t
  | h :: t, S k' => h :: set_nat t k' x
  end.

Definition set (v : list R) (k : Z) (x : R) : list R :=
  set_nat v (Z.to_nat k) x.

(** [std::accumulate ( v.begin() , v.end() , 0.0 )] *)
Definition sum (v : list R) : R := fold_left Rplus v 0%R.

End Vec.

(** Comparison of doubles as a boolean, as used in C++ conditions. *)
Definition Rltb (a b : R) : bool := if Rlt_dec a b then true else false.

(** The loop [for i <= n : result += f i] over an [unsigned short]. *)
Definition sum1 (n : Z) (f : Z -> R) : R :=
  sum_f_R0 (fun i => f (Z.of_nat i)) (Z.to_nat n).

(** The loop nest
    [for ix <= nx : for iy <= ny : for iz <= nz : result += f ix iy iz]
    over the full cube of basis triples. *)
Definition sum3 (nx ny nz : Z) (f : Z -> Z -> Z -> R) : R :=
  sum1 nx (fun ix => sum1 ny (fun iy => sum1 nz (fun iz => f ix iy iz))).

(** ** The one-dimensional Bernstein basis *)

Module Bernstein.

(** Modelled from the spec: the class [Ostap::Math::Bernstein] of
    [Ostap/Bernstein.h] is not part of the sources.  The glossary gives the
    basis function of degree [n] and index [i] as
    [C(n,i) t^i (1-t)^(n-i)] on [0,1]. *)
Definition basis (n i : nat) (t : R) : R :=
  (C n i * t ^ i * (1 - t) ^ (n - i))%R.

(** Modelled from the spec: a basic polynomial living on [[xmin,xmax]],
    the element [m_bx[i]] of a tensor; called at [x] it maps [x] to
    [t = (x - xmin) / (xmax - xmin)] and is clamped to 0 outside of its
    interval ("the basis functions' own domain clamp"). *)
Definition basic (n i : Z) (xmin xmax : R) (x : R) : R :=
  if Rltb x xmin || Rltb xmax x then 0%R
  else basis (Z.to_nat n) (Z.to_nat i) ((x - xmin) / (xmax - xmin))%R.

(** Modelled from the spec: the integral of a basic polynomial over its
    whole interval [[xmin,xmax]]: "1/(degree+1) per axis" in the variable
    [t], hence the length of the interval over [degree + 1] in the
    variable [x] (lemma [bernstein_basic_integral]). *)
Definition full_integral (n : Z) (xmin xmax : R) : R :=
  ((xmax - xmin) / IZR (n + 1))%R.

End Bernstein.

(** ** Bernstein3D *)

Module Bernstein3D.

Record t : Type := mk {
  m_nx : Z;
  m_ny : Z;
  m_nz : Z;
  m_pars : list R;
  m_xmin : R;
  m_xmax : R;
  m_ymin : R;
  m_ymax : R;
  m_zmin : R;
  m_zmax : R
}.

Definition npars (b : t) : Z := Vec.size (m_pars b).
Definition xmin (b : t) : R := m_xmin b.
Definition xmax (b : t) : R := m_xmax b.
Definition ymin (b : t) : R := m_ymin b.
Definition ymax (b : t) : R := m_ymax b.
Definition zmin (b : t) : R := m_zmin b.
Definition zmax (b : t) : R := m_zmax b.
Definition nX (b : t) : Z := m_nx b.
Definition nY (b : t) : Z := m_ny b.
Definition nZ (b : t) : Z := m_nz b.

(** [index ( l , m , n )]:
    [( l > m_nx || m > m_ny || n > m_nz ) ? -1 :
     1u * ( m_nz + 1 ) * ( m_ny + 1 ) * l + 1u * ( m_nz + 1 ) * m + n] *)
Definition index (b : t) (l m n : Z) : Z :=
  if (l >? m_nx b) || (m >? m_ny b) || (n >? m_nz b) then UInt.minus_one
  else
    UInt.add
      (UInt.add
         (UInt.mul (UInt.mul (UInt.mul 1 (m_nz b + 1)) (m_ny b + 1)) l)
         (UInt.mul (UInt.mul 1 (m_nz b + 1)) m))
      n.

(** [par ( k )]: [k < m_pars.size() ? m_pars[k] : 0.0] *)
Definition par (b : t) (k : Z) : R :=
  if k <? Vec.size (m_pars b) then Vec.get (m_pars b) k else 0%R.

(** [par ( l , m , n )]: [par ( index ( l , m , n ) )] *)
Definition par3 (b : t) (l m n : Z) : R := par b (index b l m n).

Definition with_pars (b : t) (v : list R) : t :=
  mk (m_nx b) (m_ny b) (m_nz b) v
     (m_xmin b) (m_xmax b) (m_ymin b) (m_ymax b) (m_zmin b) (m_zmax b).

(** Modelled from the spec: [setPar ( k , value )] is only declared in the
    header.  An index outside of the storage is "a no-op returning
    failure"; otherwise the coefficient is stored. *)
Definition setPar (b : t) (k : Z) (value : R) : bool * t :=
  if k <? Vec.size (m_pars b)
  then (true, with_pars b (Vec.set (m_pars b) k value))
  else (false, b).

(** [setParameter ( k , value )]:
    [( k < m_pars.size() ) && setPar ( k , value )] *)
Definition setParameter (b : t) (k : Z) (value : R) : bool * t :=
  if k <? Vec.size (m_pars b) then setPar b k value else (false, b).

(** [setPar ( l , m , n , value )]:
    [k = index ( l , m , n ) ; ( k < m_pars.size() ) && setPar ( k , value )] *)
Definition setPar3 (b : t) (l m n : Z) (value : R) : bool * t :=
  let k := index b l m n in
  if k <? Vec.size (m_pars b) then setPar b k value else (false, b).

(** Coordinate transformations, read over the reals: the formulas of
    [x], [y], [z], [tx], [ty], [tz] in exact arithmetic.  Their double
    precision versions are in [Binary64.Bernstein3D]. *)
Definition x (b : t) (tx : R) : R := (xmin b + (xmax b - xmin b) * tx)%R.
Definition y (b : t) (ty : R) : R := (ymin b + (ymax b - ymin b) * ty)%R.
Definition z (b : t) (tz : R) : R := (zmin b + (zmax b - zmin b) * tz)%R.
Definition tx (b : t) (x : R) : R := ((x - xmin b) / (xmax b - xmin b))%R.
Definition ty (b : t) (y : R) : R := ((y - ymin b) / (ymax b - ymin b))%R.
Definition tz (b : t) (z : R) : R := ((z - zmin b) / (zmax b - zmin b))%R.

(** The vectors [m_bx], [m_by], [m_bz] of basic polynomials. *)
Definition m_bx (b : t) (i : Z) : R -> R :=
  Bernstein.basic (m_nx b) i (m_xmin b) (m_xmax b).
Definition m_by (b : t) (i : Z) : R -> R :=
  Bernstein.basic (m_ny b) i (m_ymin b) (m_ymax b).
Definition m_bz (b : t) (i : Z) : R -> R :=
  Bernstein.basic (m_nz b) i (m_zmin b) (m_zmax b).

(** [basicX ( i , x )]:
    [( i > m_nx || x < m_xmin || x < m_xmax ) ? 0.0 : m_bx[i](x)] *)
Definition basicX (b : t) (i : Z) (x : R) : R :=
  if (i >? m_nx b) || Rltb x (m_xmin b) || Rltb x (m_xmax b) then 0%R
  else m_bx b i x.
Definition basicY (b : t) (i : Z) (y : R) : R :=
  if (i >? m_ny b) || Rltb y (m_ymin b) || Rltb y (m_ymax b) then 0%R
  else m_by b i y.
Definition basicZ (b : t) (i : Z) (z : R) : R :=
  if (i >? m_nz b) || Rltb z (m_zmin b) || Rltb z (m_zmax b) then 0%R
  else m_bz b i z.

(** Modelled from the spec: the constructor is only declared; the storage
    is a "flat coefficient array of length (nx+1)(ny+1)(nz+1)", here
    filled with zeros. *)
Definition make (nX nY nZ : Z) (xmin xmax ymin ymax zmin zmax : R) : t :=
  mk nX nY nZ
     (repeat 0%R (Z.to_nat ((nX + 1) * (nY + 1) * (nZ + 1))))
     xmin xmax ymin ymax zmin zmax.

(** Modelled from the spec: [calculate] is only declared; it is "the
    weighted triple sum over all stored coefficients using the index
    map". *)
Definition calculate (b : t) (fx fy fz : Z -> R) : R :=
  sum3 (m_nx b) (m_ny b) (m_nz b)
    (fun ix iy iz => (par3 b ix iy iz * fx ix * fy iy * fz iz)%R).

(** Modelled from the spec: [evaluate] is only declared; "out-of-domain
    coordinates evaluate to 0", otherwise each axis' basis is evaluated at
    the point and the weighted triple sum is formed. *)
Definition evaluate (b : t) (x y z : R) : R :=
  if Rltb x (m_xmin b) || Rltb (m_xmax b) x ||
     Rltb y (m_ymin b) || Rltb (m_ymax b) y ||
     Rltb z (m_zmin b) || Rltb (m_zmax b) z
  then 0%R
  else calculate b (fun i => m_bx b i x) (fun j => m_by b j y)
                 (fun k => m_bz b k z).

(** Total number of basis triples. *)
Definition ntriples (b : t) : Z := (m_nx b + 1) * (m_ny b + 1) * (m_nz b + 1).

(** Modelled from the spec: [operator +=] is only declared; "adding
    constant a is realized by adding a / (total number of basis triples)
    to every stored coefficient". *)
Definition op_add_assign (b : t) (a : R) : t :=
  with_pars b (map (fun c => (c + a / IZR (ntriples b))%R) (m_pars b)).

(** Modelled from the spec: [integral ()] is only declared, with the
    documentation "get the integral over 3D-region xmin < x < xmax,
    ymin < y < ymax, zmin < z < zmax".  Integration takes "the relevant
    one-dimensional definite integral for every basis index touched" and
    forms "the same packed-coefficient weighted triple sum as evaluation";
    over the whole box every axis contributes the full-interval integral
    of its basic polynomial.  Lemma [b3d_integral_of_evaluate] shows that
    this is the integral of [evaluate] over the box. *)
Definition integral (b : t) : R :=
  calculate b
    (fun _ => Bernstein.full_integral (m_nx b) (m_xmin b) (m_xmax b))
    (fun _ => Bernstein.full_integral (m_ny b) (m_ymin b) (m_ymax b))
    (fun _ => Bernstein.full_integral (m_nz b) (m_zmin b) (m_zmax b)).

(** The point lies in the domain box. *)
Definition in_domain (b : t) (x y z : R) : Prop :=
  (m_xmin b <= x <= m_xmax b)%R /\ (m_ymin b <= y <= m_ymax b)%R /\
  (m_zmin b <= z <= m_zmax b)%R.

(** The invariant of the data model: the degrees are [unsigned short], the
    storage has one coefficient per basis triple and every interval has
    [min < max]. *)
Definition wf (b : t) : Prop :=
  UInt.is_ushort (m_nx b) /\ UInt.is_ushort (m_ny b) /\
  UInt.is_ushort (m_nz b) /\
  Vec.size (m_pars b) = (m_nx b + 1) * (m_ny b + 1) * (m_nz b + 1) /\
  (m_xmin b < m_xmax b)%R /\ (m_ymin b < m_ymax b)%R /\
  (m_zmin b < m_zmax b)%R.

End Bernstein3D.

(** ** Bernstein3DSym *)

Module Bernstein3DSym.

Record t : Type := mk {
  m_n : Z;
  m_pars : list R;
  m_xmin : R;
  m_xmax : R
}.

Definition npars (b : t) : Z := Vec.size (m_pars b).
Definition xmin (b : t) : R := m_xmin b.
Definition xmax (b : t) : R := m_xmax b.
Definition ymin (b : t) : R := xmin b.
Definition ymax (b : t) : R := xmax b.
Definition zmin (b : t) : R := xmin b.
Definition zmax (b : t) : R := xmax b.
Definition nX (b : t) : Z := m_n b.
Definition nY (b : t) : Z := nX b.
Definition nZ (b : t) : Z := nY b.

(** The last branch of [index]:
    [l > m_n ? -1 :
     1u * l * ( l + 1 ) * ( l + 2 ) / 6 + 1u * m * ( m + 1 ) / 2 + n] *)
Definition slot (b : t) (l m n : Z) : Z :=
  if l >? m_n b then UInt.minus_one
  else
    UInt.add
      (UInt.add
         (UInt.div (UInt.mul (UInt.mul (UInt.mul 1 l) (l + 1)) (l + 2)) 6)
         (UInt.div (UInt.mul (UInt.mul 1 m) (m + 1)) 2))
      n.

(** Number of pairs of the triple that are out of (descending) order. *)
Definition inversions (l m n : Z) : nat :=
  ((if Z.ltb l m then 1 else 0) + (if Z.ltb l n then 1 else 0) +
   (if Z.ltb m n then 1 else 0))%nat.

(** [index ( l , m , n )]:
    [m > l ? index ( m , l , n ) : n > m ? index ( l , n , m ) : ...],
    a recursion on the number of inversions. *)
Equations? index (b : t) (l m n : Z) : Z by wf (inversions l m n) lt :=
  index b l m n with Z_lt_dec l m := {
    | left _ => index b m l n ;
    | right _ with Z_lt_dec m n := {
        | left _ => index b l n m ;
        | right _ => slot b l m n } }.
Proof.
  all: unfold inversions;
    repeat match goal with
           | |- context [?a <? ?c] => destruct (Z.ltb_spec a c)
           end; lia.
Qed.

(** The same function with the depth of the call stack bounded by
    [fuel]: [None] means that the bound was reached. *)
Fixpoint index_fuel (fuel : nat) (b : t) (l m n : Z) : option Z :=
  match fuel with
  | O => None
  | S fuel' =>
      if m >? l then index_fuel fuel' b m l n
      else if n >? m then index_fuel fuel' b l n m
      else Some (slot b l m n)
  end.

Definition par (b : t) (k : Z) : R :=
  if k <? Vec.size (m_pars b) then Vec.get (m_pars b) k else 0%R.

Definition par3 (b : t) (l m n : Z) : R := par b (index b l m n).

Definition with_pars (b : t) (v : list R) : t :=
  mk (m_n b) v (m_xmin b) (m_xmax b).

(** Modelled from the spec: [setPar ( k , value )] is only declared in the
    header; out of range it is "a no-op returning failure". *)
Definition setPar (b : t) (k : Z) (value : R) : bool * t :=
  if k <? Vec.size (m_pars b)
  then (true, with_pars b (Vec.set (m_pars b) k value))
  else (false, b).

Definition setParameter (b : t) (k : Z) (value : R) : bool * t :=
  if k <? Vec.size (m_pars b) then setPar b k value else (false, b).

Definition setPar3 (b : t) (l m n : Z) (value : R) : bool * t :=
  let k := index b l m n in
  if k <? Vec.size (m_pars b) then setPar b k value else (false, b).

(** Coordinate transformations, read over the reals; the double precision
    versions are in [Binary64.Bernstein3DSym]. *)
Definition x (b : t) (tx : R) : R := (xmin b + (xmax b - xmin b) * tx)%R.
Definition y (b : t) (ty : R) : R := (ymin b + (ymax b - ymin b) * ty)%R.
Definition z (b : t) (tz : R) : R := (zmin b + (zmax b - zmin b) * tz)%R.
Definition tx (b : t) (x : R) : R := ((x - xmin b) / (xmax b - xmin b))%R.
Definition ty (b : t) (y : R) : R := ((y - ymin b) / (ymax b - ymin b))%R.
Definition tz (b : t) (z : R) : R := ((z - zmin b) / (zmax b - zmin b))%R.

(** The vector [m_b] of basic polynomials, shared by the three axes. *)
Definition m_b (b : t) (i : Z) : R -> R :=
  Bernstein.basic (m_n b) i (m_xmin b) (m_xmax b).

Definition basicX (b : t) (i : Z) (x : R) : R :=
  if (i >? nX b) || Rltb x (xmin b) || Rltb x (xmax b) then 0%R
  else m_b b i x.
Definition basicY (b : t) (i : Z) (y : R) : R :=
  if (i >? nY b) || Rltb y (ymin b) || Rltb y (ymax b) then 0%R
  else m_b b i y.
Definition basicZ (b : t) (i : Z) (z : R) : R :=
  if (i >? nZ b) || Rltb z (zmin b) || Rltb z (zmax b) then 0%R
  else m_b b i z.

(** Modelled from the spec: the constructor is only declared; the storage
    holds one slot per unordered triple, here filled with zeros. *)
Definition make (N : Z) (xmin xmax : R) : t :=
  mk N (repeat 0%R (Z.to_nat ((N + 1) * (N + 2) * (N + 3) / 6))) xmin xmax.

(** Modelled from the spec: [calculate] is only declared; it iterates "the
    full (i,j,k) cube" and looks "up the packed coefficient by its
    canonicalized index each time". *)
Definition calculate (b : t) (fx fy fz : Z -> R) : R :=
  sum3 (m_n b) (m_n b) (m_n b)
    (fun ix iy iz => (par3 b ix iy iz * fx ix * fy iy * fz iz)%R).

(** Modelled from the spec: [evaluate] is only declared. *)
Definition evaluate (b : t) (x y z : R) : R :=
  if Rltb x (xmin b) || Rltb (xmax b) x ||
     Rltb y (ymin b) || Rltb (ymax b) y ||
     Rltb z (zmin b) || Rltb (zmax b) z
  then 0%R
  else calculate b (fun i => m_b b i x) (fun j => m_b b j y)
                 (fun k => m_b b k z).

(** Total number of basis triples. *)
Definition ntriples (b : t) : Z := (m_n b + 1) * (m_n b + 1) * (m_n b + 1).

(** Modelled from the spec: [operator +=] is only declared; the constant
    divided by the total number of basis triples is added to "every
    packed slot". *)
Definition op_add_assign (b : t) (a : R) : t :=
  with_pars b (map (fun c => (c + a / IZR (ntriples b))%R) (m_pars b)).

Definition in_domain (b : t) (x y z : R) : Prop :=
  (xmin b <= x <= xmax b)%R /\ (ymin b <= y <= ymax b)%R /\
  (zmin b <= z <= zmax b)%R.

(** The invariant of the data model: one slot per unordered triple. *)
Definition wf (b : t) : Prop :=
  UInt.is_ushort (m_n b) /\
  Vec.size (m_pars b) = (m_n b + 1) * (m_n b + 2) * (m_n b + 3) / 6 /\
  (m_xmin b < m_xmax b)%R.

End Bernstein3DSym.

(** ** Bernstein3DMix *)

Module Bernstein3DMix.

Record t : Type := mk {
  m_n : Z;
  m_nz : Z;
  m_pars : list R;
  m_xmin : R;
  m_xmax : R;
  m_zmin : R;
  m_zmax : R
}.

Definition npars (b : t) : Z := Vec.size (m_pars b).
Definition xmin (b : t) : R := m_xmin b.
Definition xmax (b : t) : R := m_xmax b.
Definition ymin (b : t) : R := xmin b.
Definition ymax (b : t) : R := xmax b.
Definition zmin (b : t) : R := m_zmin b.
Definition zmax (b : t) : R := m_zmax b.
Definition nX (b : t) : Z := m_n b.
Definition nY (b : t) : Z := nX b.
Definition nZ (b : t) : Z := m_nz b.

(** The last branches of [index]:
    [l > m_n ? -1 : n > m_nz ? -1 :
     ( 1u * l * ( l + 1 ) / 2 + m ) * ( m_nz + 1 ) + n] *)
Definition slot (b : t) (l m n : Z) : Z :=
  if l >? m_n b then UInt.minus_one
  else if n >? m_nz b then UInt.minus_one
  else
    UInt.add
      (UInt.mul
         (UInt.add (UInt.div (UInt.mul (UInt.mul 1 l) (l + 1)) 2) m)
         (m_nz b + 1))
      n.

Definition inversions (l m : Z) : nat := if Z.ltb l m then 1%nat else 0%nat.

(** [index ( l , m , n )]: [m > l ? index ( m , l , n ) : ...] *)
Equations? index (b : t) (l m n : Z) : Z by wf (inversions l m) lt :=
  index b l m n with Z_lt_dec l m := {
    | left _ => index b m l n ;
    | right _ => slot b l m n }.
Proof.
  unfold inversions.
  destruct (Z.ltb_spec l m); destruct (Z.ltb_spec m l); lia.
Qed.

Fixpoint index_fuel (fuel : nat) (b : t) (l m n : Z) : option Z :=
  match fuel with
  | O => None
  | S fuel' =>
      if m >? l then index_fuel fuel' b m l n
      else Some (slot b l m n)
  end.

Definition par (b : t) (k : Z) : R :=
  if k <? Vec.size (m_pars b) then Vec.get (m_pars b) k else 0%R.

Definition par3 (b : t) (l m n : Z) : R := par b (index b l m n).

Definition with_pars (b : t) (v : list R) : t :=
  mk (m_n b) (m_nz b) v (m_xmin b) (m_xmax b) (m_zmin b) (m_zmax b).

(** Modelled from the spec: [setPar ( k , value )] is only declared in the
    header; out of range it is "a no-op returning failure". *)
Definition setPar (b : t) (k : Z) (value : R) : bool * t :=
  if k <? Vec.size (m_pars b)
  then (true, with_pars b (Vec.set (m_pars b) k value))
  else (false, b).

Definition setParameter (b : t) (k : Z) (value : R) : bool * t :=
  if k <? Vec.size (m_pars b) then setPar b k value else (false, b).

(** Modelled from the spec: [setPar ( l , m , n , value )] is only declared
    for this class; it is taken to translate the triple through [index]
    like the inline versions of the two sibling classes. *)
Definition setPar3 (b : t) (l m n : Z) (value : R) : bool * t :=
  let k := index b l m n in
  if k <? Vec.size (m_pars b) then setPar b k value else (false, b).

(** Coordinate transformations, read over the reals; the double precision
    versions are in [Binary64.Bernstein3DMix]. *)
Definition x (b : t) (tx : R) : R := (xmin b + (xmax b - xmin b) * tx)%R.
Definition y (b : t) (ty : R) : R := (ymin b + (ymax b - ymin b) * ty)%R.
Definition z (b : t) (tz : R) : R := (zmin b + (zmax b - zmin b) * tz)%R.
Definition tx (b : t) (x : R) : R := ((x - xmin b) / (xmax b - xmin b))%R.
Definition ty (b : t) (y : R) : R := ((y - ymin b) / (ymax b - ymin b))%R.
Definition tz (b : t) (z : R) : R := ((z - zmin b) / (zmax b - zmin b))%R.

Definition m_b (b : t) (i : Z) : R -> R :=
  Bernstein.basic (m_n b) i (m_xmin b) (m_xmax b).
Definition m_bz (b : t) (i : Z) : R -> R :=
  Bernstein.basic (m_nz b) i (m_zmin b) (m_zmax b).

Definition basicX (b : t) (i : Z) (x : R) : R :=
  if (i >? nX b) || Rltb x (xmin b) || Rltb x (xmax b) then 0%R
  else m_b b i x.
Definition basicY (b : t) (i : Z) (y : R) : R :=
  if (i >? nY b) || Rltb y (ymin b) || Rltb y (ymax b) then 0%R
  else m_b b i y.
Definition basicZ (b : t) (i : Z) (z : R) : R :=
  if (i >? m_nz b) || Rltb z (m_zmin b) || Rltb z (m_zmax b) then 0%R
  else m_bz b i z.

(** Modelled from the spec: the constructor is only declared; the storage
    holds one slot per unordered pair and third index, here filled with
    zeros. *)
Definition make (N Nz : Z) (xmin xmax zmin zmax : R) : t :=
  mk N Nz (repeat 0%R (Z.to_nat ((N + 1) * (N + 2) / 2 * (Nz + 1))))
     xmin xmax zmin zmax.

(** Modelled from the spec: [calculate] is only declared; it iterates "the
    full (i,j,k) cube" and looks "up the packed coefficient by its
    canonicalized index each time". *)
Definition calculate (b : t) (fx fy fz : Z -> R) : R :=
  sum3 (m_n b) (m_n b) (m_nz b)
    (fun ix iy iz => (par3 b ix iy iz * fx ix * fy iy * fz iz)%R).

(** Modelled from the spec: [evaluate] is only declared. *)
Definition evaluate (b : t) (x y z : R) : R :=
  if Rltb x (xmin b) || Rltb (xmax b) x ||
     Rltb y (ymin b) || Rltb (ymax b) y ||
     Rltb z (zmin b) || Rltb (zmax b) z
  then 0%R
  else calculate b (fun i => m_b b i x) (fun j => m_b b j y)
                 (fun k => m_bz b k z).

(** Total number of basis triples. *)
Definition ntriples (b : t) : Z := (m_n b + 1) * (m_n b + 1) * (m_nz b + 1).

(** Modelled from the spec: [operator +=] is only declared; the constant
    divided by the total number of basis triples is added to "every
    packed slot". *)
Definition op_add_assign (b : t) (a : R) : t :=
  with_pars b (map (fun c => (c + a / IZR (ntriples b))%R) (m_pars b)).

Definition in_domain (b : t) (x y z : R) : Prop :=
  (xmin b <= x <= xmax b)%R /\ (ymin b <= y <= ymax b)%R /\
  (zmin b <= z <= zmax b)%R.

(** The invariant of the data model: one slot per unordered pair of the
    first two indices and per third index. *)
Definition wf (b : t) : Prop :=
  UInt.is_ushort (m_n b) /\ UInt.is_ushort (m_nz b) /\
  Vec.size (m_pars b) = (m_n b + 1) * (m_n b + 2) / 2 * (m_nz b + 1) /\
  (m_xmin b < m_xmax b)%R /\ (m_zmin b < m_zmax b)%R.

End Bernstein3DMix.

(** ** The coordinate transformations in double precision *)

Module Binary64.

(** A [double] is an IEEE 754 binary64 number; [+], [-], [*] and [/] round
    to nearest, and [==], [<=] are the IEEE comparisons. *)
Definition double : Set := PrimFloat.float.

Module Bernstein3D.

(** The edges of the box: the members read by the transformations. *)
Record t : Set := mk {
  m_xmin : double;
  m_xmax : double;
  m_ymin : double;
  m_ymax : double;
  m_zmin : double;
  m_zmax : double
}.

Definition xmin (b : t) : double := m_xmin b.
Definition xmax (b : t) : double := m_xmax b.
Definition ymin (b : t) : double := m_ymin b.
Definition ymax (b : t) : double := m_ymax b.
Definition zmin (b : t) : double := m_zmin b.
Definition zmax (b : t) : double := m_zmax b.

(** [x ( tx )]: [xmin () + ( xmax () - xmin () ) * tx] *)
Definition x (b : t) (tx : double) : double :=
  (xmin b + (xmax b - xmin b) * tx)%float.
Definition y (b : t) (ty : double) : double :=
  (ymin b + (ymax b - ymin b) * ty)%float.
Definition z (b : t) (tz : double) : double :=
  (zmin b + (zmax b - zmin b) * tz)%float.

(** [tx ( x )]: [( x - xmin () ) / ( xmax () - xmin () )] *)
Definition tx (b : t) (x : double) : double :=
  ((x - xmin b) / (xmax b - xmin b))%float.
Definition ty (b : t) (y : double) : double :=
  ((y - ymin b) / (ymax b - ymin b))%float.
Definition tz (b : t) (z : double) : double :=
  ((z - zmin b) / (zmax b - zmin b))%float.

End Bernstein3D.

Module Bernstein3DSym.

Record t : Set := mk {
  m_xmin : double;
  m_xmax : double
}.

Definition xmin (b : t) : double := m_xmin b.
Definition xmax (b : t) : double := m_xmax b.
(** [ymin ()]: [xmin ()], and so on: the three axes share one interval. *)
Definition ymin (b : t) : double := xmin b.
Definition ymax (b : t) : double := xmax b.
Definition zmin (b : t) : double := xmin b.
Definition zmax (b : t) : double := xmax b.

Definition x (b : t) (tx : double) : double :=
  (xmin b + (xmax b - xmin b) * tx)%float.
Definition y (b : t) (ty : double) : double :=
  (ymin b + (ymax b - ymin b) * ty)%float.
Definition z (b : t) (tz : double) : double :=
  (zmin b + (zmax b - zmin b) * tz)%float.
Definition tx (b : t) (x : double) : double :=
  ((x - xmin b) / (xmax b - xmin b))%float.
Definition ty (b : t) (y : double) : double :=
  ((y - ymin b) / (ymax b - ymin b))%float.
Definition tz (b : t) (z : double) : double :=
  ((z - zmin b) / (zmax b - zmin b))%float.

End Bernstein3DSym.

Module Bernstein3DMix.

Record t : Set := mk {
  m_xmin : double;
  m_xmax : double;
  m_zmin : double;
  m_zmax : double
}.

Definition xmin (b : t) : double := m_xmin b.
Definition xmax (b : t) : double := m_xmax b.
(** [ymin ()]: [xmin ()], [ymax ()]: [xmax ()]. *)
Definition ymin (b : t) : double := xmin b.
Definition ymax (b : t) : double := xmax b.
Definition zmin (b : t) : double := m_zmin b.
Definition zmax (b : t) : double := m_zmax b.

Definition x (b : t) (tx : double) : double :=
  (xmin b + (xmax b - xmin b) * tx)%float.
Definition y (b : t) (ty : double) : double :=
  (ymin b + (ymax b - ymin b) * ty)%float.
Definition z (b : t) (tz : double) : double :=
  (zmin b + (zmax b - zmin b) * tz)%float.
Definition tx (b : t) (x : double) : double :=
  ((x - xmin b) / (xmax b - xmin b))%float.
Definition ty (b : t) (y : double) : double :=
  ((y - ymin b) / (ymax b - ymin b))%float.
Definition tz (b : t) (z : double) : double :=
  ((z - zmin b) / (zmax b - zmin b))%float.

End Bernstein3DMix.

End Binary64.

(** ** The parameter sphere *)

Module NSphere.

(** Modelled from the spec: the class [Ostap::Math::NSphere] of
    [Ostap/NSphere.h] is not part of the sources.  It "maps an
    (M-1)-dimensional vector of unconstrained phase parameters to M
    non-negative values summing to one (squared direction cosines on a
    unit hypersphere)" and "exposes parameter count, per-parameter
    get/set, and the resulting non-negative weight vector". *)
Record t : Type := mk { m_phases : list R }.

(** A sphere with [n] phases, all zero. *)
Definition make (n : Z) : t := mk (repeat 0%R (Z.to_nat n)).

Definition nPhi (s : t) : Z := Vec.size (m_phases s).

Definition pars (s : t) : list R := m_phases s.

Definition phase (s : t) (k : Z) : R :=
  if k <? Vec.size (m_phases s) then Vec.get (m_phases s) k else 0%R.

Definition setPhase (s : t) (k : Z) (value : R) : bool * t :=
  if k <? Vec.size (m_phases s)
  then (true, mk (Vec.set (m_phases s) k value))
  else (false, s).

(** Squared direction cosines: [cos^2 p0], [sin^2 p0 cos^2 p1], ...,
    [sin^2 p0 ... sin^2 p(n-1)]. *)
Fixpoint x2_of (phases : list R) : list R :=
  match phases with
  | [] => [1%R]
  | phi :: rest =>
      ((cos phi) ^ 2)%R :: map (Rmult ((sin phi) ^ 2)%R) (x2_of rest)
  end.

(** The weight vector. *)
Definition x2 (s : t) : list R := x2_of (m_phases s).

End NSphere.

(** ** Positive3D *)

Module Positive3D.

Record t : Type := mk {
  m_bernstein : Bernstein3D.t;
  m_sphere : NSphere.t
}.

(** [npars ()]: [m_sphere.nPhi ()] *)
Definition npars (p : t) : Z := NSphere.nPhi (m_sphere p).

(** [par ( k )]: [m_sphere.phase ( k )] *)
Definition par (p : t) (k : Z) : R := NSphere.phase (m_sphere p) k.

Definition pars (p : t) : list R := NSphere.pars (m_sphere p).
Definition bpars (p : t) : list R := Bernstein3D.m_pars (m_bernstein p).

Definition nX (p : t) : Z := Bernstein3D.nX (m_bernstein p).
Definition nY (p : t) : Z := Bernstein3D.nY (m_bernstein p).
Definition nZ (p : t) : Z := Bernstein3D.nZ (m_bernstein p).

(** [evaluate ( x , y , z )]: [m_bernstein ( x , y , z )] *)
Definition evaluate (p : t) (x y z : R) : R :=
  Bernstein3D.evaluate (m_bernstein p) x y z.

(** Modelled from the spec: [updateBernstein] is only declared; the
    resync reads "the sphere's current non-negative weight vector" and
    copies "it verbatim into the tensor's coefficient storage, slot for
    slot". *)
Definition updateBernstein (p : t) : bool * t :=
  (true,
   mk (Bernstein3D.with_pars (m_bernstein p) (NSphere.x2 (m_sphere p)))
      (m_sphere p)).

(** Modelled from the spec: the constructor is only declared; the sphere
    has one parameter less than the tensor has slots, and tensor and
    sphere are in sync when it returns. *)
Definition make (Nx Ny Nz : Z) (xmin xmax ymin ymax zmin zmax : R) : t :=
  snd (updateBernstein
         (mk (Bernstein3D.make Nx Ny Nz xmin xmax ymin ymax zmin zmax)
             (NSphere.make ((Nx + 1) * (Ny + 1) * (Nz + 1) - 1)))).

(** Modelled from the spec: [setPar ( k , value )] is only declared;
    "setting a parameter index outside [0, paramCount) is a no-op
    reported as failure", any other setting "immediately triggers a
    resync". *)
Definition setPar (p : t) (k : Z) (value : R) : bool * t :=
  let (ok, s) := NSphere.setPhase (m_sphere p) k value in
  if ok then updateBernstein (mk (m_bernstein p) s) else (false, p).

(** [setParameter ( k , value )]: [setPar ( k , value )] *)
Definition setParameter (p : t) (k : Z) (value : R) : bool * t :=
  setPar p k value.

(** A sequence of setter calls, the way a fit drives the object. *)
Definition setPars (p : t) (calls : list (Z * R)) : t :=
  fold_left (fun q kv => snd (setPar q (fst kv) (snd kv))) calls p.

(** The state "synced" of the wrapper: the coefficients of the tensor are
    the current weights of the sphere. *)
Definition synced (p : t) : Prop := bpars p = NSphere.x2 (m_sphere p).

End Positive3D.

(** ** Positive3DSym *)

Module Positive3DSym.

Record t : Type := mk {
  m_bernstein : Bernstein3DSym.t;
  m_sphere : NSphere.t
}.

Definition npars (p : t) : Z := NSphere.nPhi (m_sphere p).
Definition par (p : t) (k : Z) : R := NSphere.phase (m_sphere p) k.
Definition bpars (p : t) : list R := Bernstein3DSym.m_pars (m_bernstein p).

(** Modelled from the spec: [updateBernstein] is only declared. *)
Definition updateBernstein (p : t) : bool * t :=
  (true,
   mk (Bernstein3DSym.with_pars (m_bernstein p) (NSphere.x2 (m_sphere p)))
      (m_sphere p)).

(** Modelled from the spec: the constructor is only declared. *)
Definition make (N : Z) (xmin xmax : R) : t :=
  snd (updateBernstein
         (mk (Bernstein3DSym.make N xmin xmax)
             (NSphere.make ((N + 1) * (N + 2) * (N + 3) / 6 - 1)))).

(** Modelled from the spec: [setPar ( k , value )] is only declared. *)
Definition setPar (p : t) (k : Z) (value : R) : bool * t :=
  let (ok, s) := NSphere.setPhase (m_sphere p) k value in
  if ok then updateBernstein (mk (m_bernstein p) s) else (false, p).

Definition setPars (p : t) (calls : list (Z * R)) : t :=
  fold_left (fun q kv => snd (setPar q (fst kv) (snd kv))) calls p.

(** The state "synced" of the wrapper: the coefficients of the tensor are
    the current weights of the sphere. *)
Definition synced (p : t) : Prop := bpars p = NSphere.x2 (m_sphere p).

End Positive3DSym.

(** ** Positive3DMix *)

Module Positive3DMix.

Record t : Type := mk {
  m_bernstein : Bernstein3DMix.t;
  m_sphere : NSphere.t
}.

Definition npars (p : t) : Z := NSphere.nPhi (m_sphere p).
Definition par (p : t) (k : Z) : R := NSphere.phase (m_sphere p) k.
Definition bpars (p : t) : list R := Bernstein3DMix.m_pars (m_bernstein p).

(** Modelled from the spec: [updateBernstein] is only declared. *)
Definition updateBernstein (p : t) : bool * t :=
  (true,
   mk (Bernstein3DMix.with_pars (m_bernstein p) (NSphere.x2 (m_sphere p)))
      (m_sphere p)).

(** Modelled from the spec: the constructor is only declared. *)
Definition make (N Nz : Z) (xmin xmax zmin zmax : R) : t :=
  snd (updateBernstein
         (mk (Bernstein3DMix.make N Nz xmin xmax zmin zmax)
             (NSphere.make ((N + 1) * (N + 2) / 2 * (Nz + 1) - 1)))).

(** Modelled from the spec: [setPar ( k , value )] is only declared. *)
Definition setPar (p : t) (k : Z) (value : R) : bool * t :=
  let (ok, s) := NSphere.setPhase (m_sphere p) k value in
  if ok then updateBernstein (mk (m_bernstein p) s) else (false, p).

Definition setPars (p : t) (calls : list (Z * R)) : t :=
  fold_left (fun q kv => snd (setPar q (fst kv) (snd kv))) calls p.

(** The state "synced" of the wrapper: the coefficients of the tensor are
    the current weights of the sphere. *)
Definition synced (p : t) : Prop := bpars p = NSphere.x2 (m_sphere p).

End Positive3DMix.

(** ** Concrete objects *)

Module Examples.

(** [Bernstein3D ( 1 , 1 , 1 )] on the unit cube, all 8 coefficients 1. *)
Definition cube111 : Bernstein3D.t :=
  Bernstein3D.mk 1 1 1 [1; 1; 1; 1; 1; 1; 1; 1]%R 0 1 0 1 0 1.





(** [Bernstein3D ( 0 , 65535 , 65535 )] on the unit cube: 2^32
    coefficients, all equal to 1. *)
Definition huge : Bernstein3D.t :=
  Bernstein3D.mk 0 65535 65535 (repeat 1%R (Z.to_nat 4294967296))
                 0 1 0 1 0 1.

(** [Bernstein3D ( 1 , 65535 , 65535 )] on the unit cube: 2^33
    coefficients, all equal to 0. *)
Definition oversized : Bernstein3D.t :=
  Bernstein3D.mk 1 65535 65535 (repeat 0%R (Z.to_nat 8589934592))
                 0 1 0 1 0 1.

(** [Bernstein3DSym ( 2 )] on the unit interval: 10 slots. *)
Definition sym2 : Bernstein3DSym.t :=
  Bernstein3DSym.mk 2 [0; 1; 2; 3; 4; 5; 6; 7; 8; 9]%R 0 1.

(** [Bernstein3DMix ( 1 , 1 )] on the unit intervals: 6 slots. *)
Definition mix11 : Bernstein3DMix.t :=
  Bernstein3DMix.mk 1 1 [0; 1; 2; 3; 4; 5]%R 0 1 0 1.



End Examples.

(** ** Triangular and tetrahedral numbers *)

Module Packing.

(** Number of pairs [m >= n >= 0] below [m]: the offset of row [m] in a
    packed triangle. *)
Definition tri (m : Z) : Z := m * (m + 1) / 2.

(** Number of triples [l >= m >= n >= 0] below [l]: the offset of layer
    [l] in a packed tetrahedron. *)
Definition tetra (l : Z) : Z := l * (l + 1) * (l + 2) / 6.

End Packing.

(** ** Integrals *)

Module Calculus.

(** The (Newton) integral of [f] over [[a,b]] is [v]: some antiderivative
    of [f] on the interval increases by [v]. *)
Definition has_integral (f : R -> R) (a b v : R) : Prop :=
  exists F : R -> R, antiderivative f F a b /\ (F b - F a)%R = v.

(** An antiderivative of [t^i (1-t)^k], by integration by parts. *)
Fixpoint monomial_primitive (k i : nat) (t : R) : R :=
  match k with
  | O => (/ INR (S i) * t ^ S i)%R
  | S k' =>
      (/ INR (S i) * (t ^ S i * (1 - t) ^ S k')
       + INR (S k') / INR (S i) * monomial_primitive k' (S i) t)%R
  end.

(** An antiderivative of the basic polynomial of degree [n] and index [i]
    on [[lo,hi]]. *)
Definition basic_primitive (n i : Z) (lo hi : R) : R -> R :=
  mult_real_fct (hi - lo)
    (mult_real_fct (C (Z.to_nat n) (Z.to_nat i))
       (comp (monomial_primitive (Z.to_nat n - Z.to_nat i) (Z.to_nat i))
          (mult_fct (minus_fct id (fct_cte lo)) (fct_cte (/ (hi - lo)))))).

End Calculus.

(** * Properties *)

(** ** Machine integers and vectors *)

Lemma uint_wrap_range (z : Z) : 0 <= UInt.wrap z < UInt.modulus.
Proof. unfold UInt.wrap, UInt.modulus. apply Z.mod_pos_bound. lia. Qed.

Lemma uint_wrap_le (z : Z) : 0 <= z -> UInt.wrap z <= z.
Proof.
  intros Hz. unfold UInt.wrap, UInt.modulus.
  apply Z.mod_le; lia.
Qed.

Lemma uint_minus_one_value : UInt.minus_one = 4294967295.
Proof. reflexivity. Qed.

Lemma vec_size_nonneg (v : list R) : 0 <= Vec.size v.
Proof. unfold Vec.size. lia. Qed.

Lemma vec_size_repeat (c : R) (n : Z) :
  0 <= n -> Vec.size (repeat c (Z.to_nat n)) = n.
Proof. intros Hn. unfold Vec.size. rewrite repeat_length. lia. Qed.

Lemma vec_size_map (f : R -> R) (v : list R) :
  Vec.size (map f v) = Vec.size v.
Proof. unfold Vec.size. now rewrite length_map. Qed.

Lemma vec_get_map (f : R -> R) (v : list R) (k : Z) :
  0 <= k < Vec.size v -> Vec.get (map f v) k = f (Vec.get v k).
Proof.
  unfold Vec.size, Vec.get. intros Hk.
  rewrite (nth_indep (map f v) 0%R (f 0%R)).
  - apply map_nth.
  - rewrite length_map. lia.
Qed.

Lemma vec_sum_fold (v : list R) (a : R) :
  fold_left Rplus v a = (a + Vec.sum v)%R.
Proof.
  unfold Vec.sum. revert a.
  induction v as [|c v IH]; intros a; simpl.
  - lra.
  - rewrite (IH (a + c)%R), (IH (0 + c)%R). lra.
Qed.

Lemma vec_sum_cons (c : R) (v : list R) :
  Vec.sum (c :: v) = (c + Vec.sum v)%R.
Proof. unfold Vec.sum at 1. simpl. rewrite vec_sum_fold. lra. Qed.

Lemma vec_sum_map_scale (w : R) (v : list R) :
  Vec.sum (map (fun c => (c * w)%R) v) = (Vec.sum v * w)%R.
Proof.
  induction v as [|c v IH]; simpl.
  - unfold Vec.sum. simpl. lra.
  - rewrite !vec_sum_cons, IH. lra.
Qed.

(** ** Index canonicalisation of the symmetric tensors *)

Ltac split_order :=
  repeat match goal with
         | |- context [?a >? ?c] => destruct (Z.gtb_spec a c)
         | |- context [Z.ltb ?a ?c] => destruct (Z.ltb_spec a c)
         end.

Lemma sym_index_unfold (b : Bernstein3DSym.t) (l m n : Z) :
  Bernstein3DSym.index b l m n =
  if m >? l then Bernstein3DSym.index b m l n
  else if n >? m then Bernstein3DSym.index b l n m
  else Bernstein3DSym.slot b l m n.
Proof.
  rewrite Bernstein3DSym.index_equation_1.
  destruct (Z_lt_dec l m) as [H|H]; simpl.
  - destruct (Z.gtb_spec m l); [reflexivity | lia].
  - destruct (Z.gtb_spec m l); [lia|].
    destruct (Z_lt_dec m n) as [H'|H']; simpl;
      destruct (Z.gtb_spec n m); try lia; reflexivity.
Qed.

Lemma mix_index_unfold (b : Bernstein3DMix.t) (l m n : Z) :
  Bernstein3DMix.index b l m n =
  if m >? l then Bernstein3DMix.index b m l n
  else Bernstein3DMix.slot b l m n.
Proof.
  rewrite Bernstein3DMix.index_equation_1.
  destruct (Z_lt_dec l m) as [H|H]; simpl;
    destruct (Z.gtb_spec m l); try lia; reflexivity.
Qed.

Lemma sym_inversions_swap12 (l m n : Z) :
  l < m ->
  Bernstein3DSym.inversions l m n = S (Bernstein3DSym.inversions m l n).
Proof. intros H. unfold Bernstein3DSym.inversions. split_order; lia. Qed.

Lemma sym_inversions_swap23 (l m n : Z) :
  m <= l -> m < n ->
  Bernstein3DSym.inversions l m n = S (Bernstein3DSym.inversions l n m).
Proof. intros H H'. unfold Bernstein3DSym.inversions. split_order; lia. Qed.

Lemma sym_inversions_le3 (l m n : Z) :
  (Bernstein3DSym.inversions l m n <= 3)%nat.
Proof. unfold Bernstein3DSym.inversions. split_order; lia. Qed.

Lemma sym_index_fuel_mono (f : nat) :
  forall (g : nat) (b : Bernstein3DSym.t) (l m n k : Z),
    (f <= g)%nat ->
    Bernstein3DSym.index_fuel f b l m n = Some k ->
    Bernstein3DSym.index_fuel g b l m n = Some k.
Proof.
  induction f as [|f IH]; intros g b l m n k Hfg; simpl; [discriminate|].
  destruct g as [|g]; [lia|]. simpl.
  destruct (m >? l); [apply IH; lia|].
  destruct (n >? m); [apply IH; lia|]. trivial.
Qed.

Lemma mix_index_fuel_mono (f : nat) :
  forall (g : nat) (b : Bernstein3DMix.t) (l m n k : Z),
    (f <= g)%nat ->
    Bernstein3DMix.index_fuel f b l m n = Some k ->
    Bernstein3DMix.index_fuel g b l m n = Some k.
Proof.
  induction f as [|f IH]; intros g b l m n k Hfg; simpl; [discriminate|].
  destruct g as [|g]; [lia|]. simpl.
  destruct (m >? l); [apply IH; lia|]. trivial.
Qed.

(** The number of inversions bounds the number of self-calls: one more
    stack frame than inversions is always enough. *)
Lemma sym_index_fuel_inversions (b : Bernstein3DSym.t) (l m n : Z) :
  Bernstein3DSym.index_fuel (S (Bernstein3DSym.inversions l m n)) b l m n =
  Some (Bernstein3DSym.index b l m n).
Proof.
  remember (Bernstein3DSym.inversions l m n) as k eqn:Hk.
  revert l m n Hk.
  induction k as [|k IH]; intros l m n Hk.
  - rewrite sym_index_unfold. simpl.
    destruct (Z.gtb_spec m l) as [H|H].
    + rewrite (sym_inversions_swap12 l m n) in Hk by lia. discriminate.
    + destruct (Z.gtb_spec n m) as [H'|H']; [|reflexivity].
      rewrite (sym_inversions_swap23 l m n) in Hk by lia. discriminate.
  - rewrite sym_index_unfold.
    change (Bernstein3DSym.index_fuel (S (S k)) b l m n)
      with (if m >? l then Bernstein3DSym.index_fuel (S k) b m l n
            else if n >? m then Bernstein3DSym.index_fuel (S k) b l n m
            else Some (Bernstein3DSym.slot b l m n)).
    destruct (Z.gtb_spec m l) as [H|H].
    + apply IH. rewrite (sym_inversions_swap12 l m n) in Hk by lia. congruence.
    + destruct (Z.gtb_spec n m) as [H'|H']; [|reflexivity].
      apply IH. rewrite (sym_inversions_swap23 l m n) in Hk by lia. congruence.
Qed.

Lemma sym_index_fuel4 (b : Bernstein3DSym.t) (l m n : Z) :
  Bernstein3DSym.index_fuel 4 b l m n = Some (Bernstein3DSym.index b l m n).
Proof.
  apply (sym_index_fuel_mono (S (Bernstein3DSym.inversions l m n))).
  - pose proof (sym_inversions_le3 l m n). lia.
  - apply sym_index_fuel_inversions.
Qed.

Lemma mix_index_fuel_inversions (b : Bernstein3DMix.t) (l m n : Z) :
  Bernstein3DMix.index_fuel (S (Bernstein3DMix.inversions l m)) b l m n =
  Some (Bernstein3DMix.index b l m n).
Proof.
  rewrite mix_index_unfold. unfold Bernstein3DMix.inversions.
  destruct (Z.ltb_spec l m) as [H|H]; simpl.
  - destruct (Z.gtb_spec m l); [|lia].
    destruct (Z.gtb_spec l m); [lia|].
    rewrite (mix_index_unfold b m l n).
    destruct (Z.gtb_spec l m); [lia|]. reflexivity.
  - destruct (Z.gtb_spec m l); [lia|]. reflexivity.
Qed.

Lemma mix_index_fuel2 (b : Bernstein3DMix.t) (l m n : Z) :
  Bernstein3DMix.index_fuel 2 b l m n = Some (Bernstein3DMix.index b l m n).
Proof.
  apply (mix_index_fuel_mono (S (Bernstein3DMix.inversions l m))).
  - unfold Bernstein3DMix.inversions. destruct (Z.ltb l m); lia.
  - apply mix_index_fuel_inversions.
Qed.

(** Exchanging two neighbours of the triple does not change the slot. *)
Lemma sym_index_swap12 (b : Bernstein3DSym.t) (l m n : Z) :
  Bernstein3DSym.index b l m n = Bernstein3DSym.index b m l n.
Proof.
  assert (H : Some (Bernstein3DSym.index b l m n) =
              Some (Bernstein3DSym.index b m l n)).
  { rewrite <- !sym_index_fuel4. simpl. split_order; try lia;
      f_equal; f_equal; lia. }
  now injection H.
Qed.

Lemma sym_index_swap23 (b : Bernstein3DSym.t) (l m n : Z) :
  Bernstein3DSym.index b l m n = Bernstein3DSym.index b l n m.
Proof.
  assert (H : Some (Bernstein3DSym.index b l m n) =
              Some (Bernstein3DSym.index b l n m)).
  { rewrite <- !sym_index_fuel4. simpl. split_order; try lia;
      f_equal; f_equal; lia. }
  now injection H.
Qed.

Lemma mix_index_swap12 (b : Bernstein3DMix.t) (l m n : Z) :
  Bernstein3DMix.index b l m n = Bernstein3DMix.index b m l n.
Proof.
  assert (H : Some (Bernstein3DMix.index b l m n) =
              Some (Bernstein3DMix.index b m l n)).
  { rewrite <- !mix_index_fuel2. simpl. split_order; try lia;
      f_equal; f_equal; lia. }
  now injection H.
Qed.

(** The index maps on small tensors. *)
Example b3d_index_101 : Bernstein3D.index Examples.cube111 1 0 1 = 5.
Proof. reflexivity. Qed.

Example b3d_index_111 : Bernstein3D.index Examples.cube111 1 1 1 = 7.
Proof. reflexivity. Qed.

Example b3d_index_200 :
  Bernstein3D.index Examples.cube111 2 0 0 = 4294967295.
Proof. reflexivity. Qed.

Example sym_index_020 : Bernstein3DSym.index Examples.sym2 0 2 0 = 4.
Proof. reflexivity. Qed.

Example sym_index_222 : Bernstein3DSym.index Examples.sym2 2 2 2 = 9.
Proof. reflexivity. Qed.

Example sym_index_030 :
  Bernstein3DSym.index Examples.sym2 0 3 0 = 4294967295.
Proof. reflexivity. Qed.

Example sym_par_002 : Bernstein3DSym.par3 Examples.sym2 0 0 2 = 4%R.
Proof. reflexivity. Qed.

Example mix_index_011 : Bernstein3DMix.index Examples.mix11 0 1 1 = 3.
Proof. reflexivity. Qed.

Example mix_index_112 :
  Bernstein3DMix.index Examples.mix11 1 1 2 = 4294967295.
Proof. reflexivity. Qed.

(** The products of the slot formula are taken modulo 2^32: from l = 1625
    on, l(l+1)(l+2) no longer fits. *)
Example sym_slot_wraps :
  Bernstein3DSym.slot (Bernstein3DSym.mk 2000 [] 0 1) 1625 0 0 = 662242 /\
  1625 * 1626 * 1627 / 6 = 716490125.
Proof. split; reflexivity. Qed.

(** A triple with a component above the degree has no slot. *)
Lemma sym_index_out_of_range (b : Bernstein3DSym.t) (l m n : Z) :
  l > Bernstein3DSym.m_n b \/ m > Bernstein3DSym.m_n b \/
  n > Bernstein3DSym.m_n b ->
  Bernstein3DSym.index b l m n = UInt.minus_one.
Proof.
  intros H.
  assert (E : Some (Bernstein3DSym.index b l m n) = Some UInt.minus_one).
  { rewrite <- sym_index_fuel4. simpl. unfold Bernstein3DSym.slot.
    split_order; try lia; reflexivity. }
  now injection E.
Qed.

Lemma mix_index_out_of_range (b : Bernstein3DMix.t) (l m n : Z) :
  l > Bernstein3DMix.m_n b \/ m > Bernstein3DMix.m_n b \/
  n > Bernstein3DMix.m_nz b ->
  Bernstein3DMix.index b l m n = UInt.minus_one.
Proof.
  intros H.
  assert (E : Some (Bernstein3DMix.index b l m n) = Some UInt.minus_one).
  { rewrite <- mix_index_fuel2. simpl. unfold Bernstein3DMix.slot.
    split_order; try lia; reflexivity. }
  now injection E.
Qed.

Lemma b3d_index_out_of_range (b : Bernstein3D.t) (l m n : Z) :
  l > Bernstein3D.m_nx b \/ m > Bernstein3D.m_ny b \/
  n > Bernstein3D.m_nz b ->
  Bernstein3D.index b l m n = UInt.minus_one.
Proof.
  intros H. unfold Bernstein3D.index.
  split_order; try lia; reflexivity.
Qed.

(** C2: for every Bernstein3DSym and every triple (l,m,n), the six
    permutations of the triple are mapped by [index] to one storage slot,
    so that the getter [par ( l , m , n )] returns the same coefficient for
    all of them. *)
Theorem C2_sym_par_permutation_invariant
  (b : Bernstein3DSym.t) (l m n : Z) :
  (Bernstein3DSym.index b m l n = Bernstein3DSym.index b l m n /\
   Bernstein3DSym.index b l n m = Bernstein3DSym.index b l m n /\
   Bernstein3DSym.index b n m l = Bernstein3DSym.index b l m n /\
   Bernstein3DSym.index b m n l = Bernstein3DSym.index b l m n /\
   Bernstein3DSym.index b n l m = Bernstein3DSym.index b l m n) /\
  (Bernstein3DSym.par3 b l m n = Bernstein3DSym.par3 b m l n /\
   Bernstein3DSym.par3 b l m n = Bernstein3DSym.par3 b l n m /\
   Bernstein3DSym.par3 b l m n = Bernstein3DSym.par3 b n m l /\
   Bernstein3DSym.par3 b l m n = Bernstein3DSym.par3 b m n l /\
   Bernstein3DSym.par3 b l m n = Bernstein3DSym.par3 b n l m).
Proof.
  assert (E1 : Bernstein3DSym.index b m l n = Bernstein3DSym.index b l m n)
    by (symmetry; apply sym_index_swap12).
  assert (E2 : Bernstein3DSym.index b l n m = Bernstein3DSym.index b l m n)
    by (symmetry; apply sym_index_swap23).
  assert (E3 : Bernstein3DSym.index b m n l = Bernstein3DSym.index b l m n)
    by (rewrite <- E1; symmetry; apply sym_index_swap23).
  assert (E4 : Bernstein3DSym.index b n l m = Bernstein3DSym.index b l m n)
    by (rewrite <- E2; symmetry; apply sym_index_swap12).
  assert (E5 : Bernstein3DSym.index b n m l = Bernstein3DSym.index b l m n)
    by (rewrite <- E4; symmetry; apply sym_index_swap23).
  unfold Bernstein3DSym.par3. rewrite E1, E2, E3, E4, E5. tauto.
Qed.

(** C10: the recursive index canonicalisation terminates on every input.
    Each self-call of [index] is made on a triple with strictly fewer
    inversions; for Bernstein3DSym one stack frame more than the number of
    inversions of the triple suffices, hence four frames at most; for
    Bernstein3DMix two frames suffice.  The bounded evaluation returns the
    value of the total function [index]. *)
Theorem C10_index_terminates
  (s : Bernstein3DSym.t) (x : Bernstein3DMix.t) (l m n : Z) :
  (if m >? l
   then (Bernstein3DSym.inversions m l n
         < Bernstein3DSym.inversions l m n)%nat
   else if n >? m
        then (Bernstein3DSym.inversions l n m
              < Bernstein3DSym.inversions l m n)%nat
        else True) /\
  Bernstein3DSym.index_fuel (S (Bernstein3DSym.inversions l m n)) s l m n =
    Some (Bernstein3DSym.index s l m n) /\
  (Bernstein3DSym.inversions l m n <= 3)%nat /\
  Bernstein3DSym.index_fuel 4 s l m n = Some (Bernstein3DSym.index s l m n) /\
  (if m >? l
   then (Bernstein3DMix.inversions m l < Bernstein3DMix.inversions l m)%nat
   else True) /\
  Bernstein3DMix.index_fuel (S (Bernstein3DMix.inversions l m)) x l m n =
    Some (Bernstein3DMix.index x l m n) /\
  (Bernstein3DMix.inversions l m <= 1)%nat /\
  Bernstein3DMix.index_fuel 2 x l m n = Some (Bernstein3DMix.index x l m n).
Proof.
  repeat apply conj.
  - destruct (Z.gtb_spec m l) as [H|H].
    + rewrite (sym_inversions_swap12 l m n) by lia. lia.
    + destruct (Z.gtb_spec n m) as [H'|H']; [|exact I].
      rewrite (sym_inversions_swap23 l m n) by lia. lia.
  - apply sym_index_fuel_inversions.
  - apply sym_inversions_le3.
  - apply sym_index_fuel4.
  - unfold Bernstein3DMix.inversions.
    destruct (Z.gtb_spec m l); [|exact I].
    destruct (Z.ltb_spec m l); destruct (Z.ltb_spec l m); lia.
  - apply mix_index_fuel_inversions.
  - unfold Bernstein3DMix.inversions. destruct (Z.ltb l m); lia.
  - apply mix_index_fuel2.
Qed.

(** ** Out-of-range indices *)

Lemma vec_get_repeat (c : R) (n k : Z) :
  0 <= k < n -> Vec.get (repeat c (Z.to_nat n)) k = c.
Proof.
  intros Hk. unfold Vec.get.
  assert (Hlt : (Z.to_nat k < Z.to_nat n)%nat) by lia.
  generalize dependent (Z.to_nat n). generalize (Z.to_nat k). clear.
  intros i. induction i as [|i IH]; intros [|j] Hlt; try lia; simpl.
  - reflexivity.
  - apply IH. lia.
Qed.

(** When the storage has more than 4294967295 coefficients the sentinel
    is the index of a stored coefficient. *)
Lemma b3d_sentinel_is_a_slot (b : Bernstein3D.t) (l m n : Z) (value : R) :
  4294967295 < Bernstein3D.npars b ->
  l > Bernstein3D.m_nx b \/ m > Bernstein3D.m_ny b \/
  n > Bernstein3D.m_nz b ->
  Bernstein3D.par3 b l m n = Vec.get (Bernstein3D.m_pars b) 4294967295 /\
  fst (Bernstein3D.setPar3 b l m n value) = true.
Proof.
  intros Hsize Hout.
  unfold Bernstein3D.par3, Bernstein3D.setPar3, Bernstein3D.par,
    Bernstein3D.setPar.
  rewrite (b3d_index_out_of_range b l m n Hout), uint_minus_one_value.
  unfold Bernstein3D.npars in Hsize.
  destruct (Z.ltb_spec 4294967295 (Vec.size (Bernstein3D.m_pars b)));
    [|lia].
  split; reflexivity.
Qed.

Lemma b3d_wf_mk_repeat (nx ny nz : Z) (c : R) (size : Z)
  (xmin xmax ymin ymax zmin zmax : R) :
  UInt.is_ushort nx -> UInt.is_ushort ny -> UInt.is_ushort nz ->
  size = (nx + 1) * (ny + 1) * (nz + 1) ->
  (xmin < xmax)%R -> (ymin < ymax)%R -> (zmin < zmax)%R ->
  Bernstein3D.wf
    (Bernstein3D.mk nx ny nz (repeat c (Z.to_nat size))
                    xmin xmax ymin ymax zmin zmax).
Proof.
  intros Hx Hy Hz Hsize Hbx Hby Hbz.
  unfold Bernstein3D.wf.
  cbn [Bernstein3D.m_nx Bernstein3D.m_ny Bernstein3D.m_nz
       Bernstein3D.m_pars Bernstein3D.m_xmin Bernstein3D.m_xmax
       Bernstein3D.m_ymin Bernstein3D.m_ymax Bernstein3D.m_zmin
       Bernstein3D.m_zmax].
  rewrite vec_size_repeat.
  - tauto.
  - unfold UInt.is_ushort, UInt.ushort_max in *. nia.
Qed.

Lemma huge_npars : Bernstein3D.npars Examples.huge = 4294967296.
Proof.
  unfold Bernstein3D.npars.
  change (Bernstein3D.m_pars Examples.huge)
    with (repeat 1%R (Z.to_nat 4294967296)).
  apply vec_size_repeat. lia.
Qed.

(** C7, as stated, fails for a tensor with 2^32 coefficients: the triple
    (1,0,0) is out of range for [Bernstein3D ( 0 , 65535 , 65535 )], yet the
    getter returns the last stored coefficient and the setter reports
    success. *)
Lemma C7_counterexample_huge_tensor :
  Bernstein3D.wf Examples.huge /\
  1 > Bernstein3D.m_nx Examples.huge /\
  Bernstein3D.index Examples.huge 1 0 0 = 4294967295 /\
  Bernstein3D.par3 Examples.huge 1 0 0 = 1%R /\
  Bernstein3D.par3 Examples.huge 1 0 0 <> 0%R /\
  fst (Bernstein3D.setPar3 Examples.huge 1 0 0 0%R) = true.
Proof.
  assert (Hout : 1 > Bernstein3D.m_nx Examples.huge \/
                 0 > Bernstein3D.m_ny Examples.huge \/
                 0 > Bernstein3D.m_nz Examples.huge).
  { left. change (Bernstein3D.m_nx Examples.huge) with 0. lia. }
  assert (Hsize : 4294967295 < Bernstein3D.npars Examples.huge)
    by (rewrite huge_npars; lia).
  destruct (b3d_sentinel_is_a_slot Examples.huge 1 0 0 0%R Hsize Hout)
    as [Hpar Hset].
  assert (Hone : Bernstein3D.par3 Examples.huge 1 0 0 = 1%R).
  { rewrite Hpar.
    change (Bernstein3D.m_pars Examples.huge)
      with (repeat 1%R (Z.to_nat 4294967296)).
    apply vec_get_repeat. lia. }
  split; [|split; [|split; [|split; [|split]]]].
  - apply (b3d_wf_mk_repeat 0 65535 65535 1%R 4294967296 0 1 0 1 0 1);
      unfold UInt.is_ushort, UInt.ushort_max; try lia; try lra.
  - change (Bernstein3D.m_nx Examples.huge) with 0. lia.
  - rewrite (b3d_index_out_of_range _ 1 0 0 Hout). reflexivity.
  - exact Hone.
  - rewrite Hone. lra.
  - exact Hset.
Qed.

(** C7 (amended): for every tensor variant, a flat index [k >= npars()]
    makes [par] return 0 and [setPar] return false with the object
    unchanged; and when the storage has at most 4294967295 slots, so that
    the sentinel is not the index of a slot, a triple with a component above
    its degree makes [par] return 0 and [setPar] return false with the
    object unchanged. *)
Theorem C7_out_of_range_index
  (b : Bernstein3D.t) (s : Bernstein3DSym.t) (x : Bernstein3DMix.t)
  (k l m n : Z) (value : R) :
  (Bernstein3D.npars b <= k ->
   Bernstein3D.par b k = 0%R /\
   Bernstein3D.setPar b k value = (false, b) /\
   Bernstein3D.setParameter b k value = (false, b)) /\
  (Bernstein3DSym.npars s <= k ->
   Bernstein3DSym.par s k = 0%R /\
   Bernstein3DSym.setPar s k value = (false, s) /\
   Bernstein3DSym.setParameter s k value = (false, s)) /\
  (Bernstein3DMix.npars x <= k ->
   Bernstein3DMix.par x k = 0%R /\
   Bernstein3DMix.setPar x k value = (false, x) /\
   Bernstein3DMix.setParameter x k value = (false, x)) /\
  (Bernstein3D.npars b <= 4294967295 ->
   l > Bernstein3D.m_nx b \/ m > Bernstein3D.m_ny b \/
   n > Bernstein3D.m_nz b ->
   Bernstein3D.par3 b l m n = 0%R /\
   Bernstein3D.setPar3 b l m n value = (false, b)) /\
  (Bernstein3DSym.npars s <= 4294967295 ->
   l > Bernstein3DSym.m_n s \/ m > Bernstein3DSym.m_n s \/
   n > Bernstein3DSym.m_n s ->
   Bernstein3DSym.par3 s l m n = 0%R /\
   Bernstein3DSym.setPar3 s l m n value = (false, s)) /\
  (Bernstein3DMix.npars x <= 4294967295 ->
   l > Bernstein3DMix.m_n x \/ m > Bernstein3DMix.m_n x \/
   n > Bernstein3DMix.m_nz x ->
   Bernstein3DMix.par3 x l m n = 0%R /\
   Bernstein3DMix.setPar3 x l m n value = (false, x)).
Proof.
  repeat apply conj.
  - unfold Bernstein3D.npars, Bernstein3D.par, Bernstein3D.setParameter,
      Bernstein3D.setPar.
    intros H. destruct (Z.ltb_spec k (Vec.size (Bernstein3D.m_pars b)));
      [lia | repeat split].
  - unfold Bernstein3DSym.npars, Bernstein3DSym.par,
      Bernstein3DSym.setParameter, Bernstein3DSym.setPar.
    intros H. destruct (Z.ltb_spec k (Vec.size (Bernstein3DSym.m_pars s)));
      [lia | repeat split].
  - unfold Bernstein3DMix.npars, Bernstein3DMix.par,
      Bernstein3DMix.setParameter, Bernstein3DMix.setPar.
    intros H. destruct (Z.ltb_spec k (Vec.size (Bernstein3DMix.m_pars x)));
      [lia | repeat split].
  - intros Hsize Hout.
    unfold Bernstein3D.par3, Bernstein3D.setPar3, Bernstein3D.par.
    rewrite (b3d_index_out_of_range b l m n Hout), uint_minus_one_value.
    unfold Bernstein3D.npars in Hsize.
    destruct (Z.ltb_spec 4294967295 (Vec.size (Bernstein3D.m_pars b)));
      [lia | split; reflexivity].
  - intros Hsize Hout.
    unfold Bernstein3DSym.par3, Bernstein3DSym.setPar3, Bernstein3DSym.par.
    rewrite (sym_index_out_of_range s l m n Hout), uint_minus_one_value.
    unfold Bernstein3DSym.npars in Hsize.
    destruct (Z.ltb_spec 4294967295 (Vec.size (Bernstein3DSym.m_pars s)));
      [lia | split; reflexivity].
  - intros Hsize Hout.
    unfold Bernstein3DMix.par3, Bernstein3DMix.setPar3, Bernstein3DMix.par.
    rewrite (mix_index_out_of_range x l m n Hout), uint_minus_one_value.
    unfold Bernstein3DMix.npars in Hsize.
    destruct (Z.ltb_spec 4294967295 (Vec.size (Bernstein3DMix.m_pars x)));
      [lia | split; reflexivity].
Qed.

Lemma C7_out_of_range_index_witness :
  (Bernstein3D.npars Examples.cube111 <= 10 /\
   Bernstein3D.par Examples.cube111 10 = 0%R /\
   Bernstein3D.setPar Examples.cube111 10 5%R = (false, Examples.cube111)) /\
  (Bernstein3DSym.npars Examples.sym2 <= 10 /\
   Bernstein3DSym.par Examples.sym2 10 = 0%R) /\
  (Bernstein3DMix.npars Examples.mix11 <= 10 /\
   Bernstein3DMix.par Examples.mix11 10 = 0%R) /\
  (3 > Bernstein3D.m_nx Examples.cube111 /\
   Bernstein3D.par3 Examples.cube111 3 0 0 = 0%R /\
   Bernstein3D.setPar3 Examples.cube111 3 0 0 5%R
     = (false, Examples.cube111)) /\
  (3 > Bernstein3DSym.m_n Examples.sym2 /\
   Bernstein3DSym.par3 Examples.sym2 3 0 0 = 0%R /\
   Bernstein3DSym.setPar3 Examples.sym2 3 0 0 5%R
     = (false, Examples.sym2)) /\
  (3 > Bernstein3DMix.m_n Examples.mix11 /\
   Bernstein3DMix.par3 Examples.mix11 3 0 0 = 0%R /\
   Bernstein3DMix.setPar3 Examples.mix11 3 0 0 5%R
     = (false, Examples.mix11)).
Proof.
  destruct (C7_out_of_range_index Examples.cube111 Examples.sym2
              Examples.mix11 10 3 0 0 5%R)
    as (H1 & H2 & H3 & H4 & H5 & H6).
  assert (B1 : Bernstein3D.npars Examples.cube111 <= 10)
    by (vm_compute; discriminate).
  assert (B2 : Bernstein3DSym.npars Examples.sym2 <= 10)
    by (vm_compute; discriminate).
  assert (B3 : Bernstein3DMix.npars Examples.mix11 <= 10)
    by (vm_compute; discriminate).
  assert (S1 : Bernstein3D.npars Examples.cube111 <= 4294967295)
    by (vm_compute; discriminate).
  assert (S2 : Bernstein3DSym.npars Examples.sym2 <= 4294967295)
    by (vm_compute; discriminate).
  assert (S3 : Bernstein3DMix.npars Examples.mix11 <= 4294967295)
    by (vm_compute; discriminate).
  assert (O1 : 3 > Bernstein3D.m_nx Examples.cube111) by reflexivity.
  assert (O2 : 3 > Bernstein3DSym.m_n Examples.sym2) by reflexivity.
  assert (O3 : 3 > Bernstein3DMix.m_n Examples.mix11) by reflexivity.
  repeat apply conj; trivial;
    first [ apply (H1 B1) | apply (H2 B2) | apply (H3 B3)
          | apply (H4 S1 (or_introl O1)) | apply (H5 S2 (or_introl O2))
          | apply (H6 S3 (or_introl O3)) ].
Defined.

(** ** Coordinate transformations *)



Lemma cube111_wf : Bernstein3D.wf Examples.cube111.
Proof.
  unfold Bernstein3D.wf, UInt.is_ushort, UInt.ushort_max; simpl.
  repeat split; try lia; lra.
Qed.

Lemma sym2_wf : Bernstein3DSym.wf Examples.sym2.
Proof.
  unfold Bernstein3DSym.wf, UInt.is_ushort, UInt.ushort_max; simpl.
  repeat split; try lia; lra.
Qed.

Lemma mix11_wf : Bernstein3DMix.wf Examples.mix11.
Proof.
  unfold Bernstein3DMix.wf, UInt.is_ushort, UInt.ushort_max; simpl.
  repeat split; try lia; lra.
Qed.




(** ** The basis-evaluation helpers *)

Lemma Rltb_true (a b : R) : (a < b)%R -> Rltb a b = true.
Proof. intros H. unfold Rltb. destruct (Rlt_dec a b); [reflexivity | lra]. Qed.

Lemma Rltb_false (a b : R) : (b <= a)%R -> Rltb a b = false.
Proof. intros H. unfold Rltb. destruct (Rlt_dec a b); [lra | reflexivity]. Qed.

(** The guard of [basicX] holds for every point below the upper edge. *)
Lemma b3d_basicX_below_xmax (b : Bernstein3D.t) (i : Z) (x : R) :
  (x < Bernstein3D.m_xmax b)%R -> Bernstein3D.basicX b i x = 0%R.
Proof.
  intros H. unfold Bernstein3D.basicX.
  rewrite (Rltb_true _ _ H), !orb_true_r. reflexivity.
Qed.

(** C6 fails on the code: the point 1/2 lies inside [0,1] and the basis
    function of degree 1 and index 0 is 1/2 there, but [basicX ( 0 , 1/2 )],
    [basicY], [basicZ] of the three tensor classes return 0. *)
Theorem C6_basic_helpers_zero_inside_domain :
  (Bernstein3D.m_xmin Examples.cube111 <= 1 / 2
     <= Bernstein3D.m_xmax Examples.cube111)%R /\
  Bernstein3D.m_bx Examples.cube111 0 (1 / 2) = (1 / 2)%R /\
  Bernstein.basis 1 0 (1 / 2) = (1 / 2)%R /\
  Bernstein3D.basicX Examples.cube111 0 (1 / 2) = 0%R /\
  Bernstein3D.basicY Examples.cube111 0 (1 / 2) = 0%R /\
  Bernstein3D.basicZ Examples.cube111 0 (1 / 2) = 0%R /\
  Bernstein3DSym.basicX Examples.sym2 0 (1 / 2) = 0%R /\
  Bernstein3DSym.basicY Examples.sym2 0 (1 / 2) = 0%R /\
  Bernstein3DSym.basicZ Examples.sym2 0 (1 / 2) = 0%R /\
  Bernstein3DMix.basicX Examples.mix11 0 (1 / 2) = 0%R /\
  Bernstein3DMix.basicY Examples.mix11 0 (1 / 2) = 0%R /\
  Bernstein3DMix.basicZ Examples.mix11 0 (1 / 2) = 0%R.
Proof.
  assert (Hlt : (1 / 2 < 1)%R) by lra.
  assert (Hb : Bernstein.basis 1 0 (1 / 2) = (1 / 2)%R).
  { unfold Bernstein.basis, C. simpl. field. }
  repeat apply conj.
  - simpl. lra.
  - simpl. lra.
  - unfold Bernstein3D.m_bx, Bernstein.basic. simpl.
    rewrite (Rltb_false (1 / 2) 0), (Rltb_false 1 (1 / 2)) by lra. simpl.
    replace ((1 / 2 - 0) / (1 - 0))%R with (1 / 2)%R by field.
    exact Hb.
  - exact Hb.
  - unfold Bernstein3D.basicX. simpl.
    rewrite (Rltb_true _ _ Hlt), orb_true_r. reflexivity.
  - unfold Bernstein3D.basicY. simpl.
    rewrite (Rltb_true _ _ Hlt), orb_true_r. reflexivity.
  - unfold Bernstein3D.basicZ. simpl.
    rewrite (Rltb_true _ _ Hlt), orb_true_r. reflexivity.
  - unfold Bernstein3DSym.basicX. simpl.
    rewrite (Rltb_true _ _ Hlt), orb_true_r. reflexivity.
  - unfold Bernstein3DSym.basicY. simpl.
    rewrite (Rltb_true _ _ Hlt), orb_true_r. reflexivity.
  - unfold Bernstein3DSym.basicZ. simpl.
    rewrite (Rltb_true _ _ Hlt), orb_true_r. reflexivity.
  - unfold Bernstein3DMix.basicX. simpl.
    rewrite (Rltb_true _ _ Hlt), orb_true_r. reflexivity.
  - unfold Bernstein3DMix.basicY. simpl.
    rewrite (Rltb_true _ _ Hlt), orb_true_r. reflexivity.
  - unfold Bernstein3DMix.basicZ. simpl.
    rewrite (Rltb_true _ _ Hlt), orb_true_r. reflexivity.
Qed.

(** ** The parameter sphere and the positive wrappers *)

Lemma vec_set_nat_length (v : list R) (k : nat) (c : R) :
  length (Vec.set_nat v k c) = length v.
Proof.
  revert k. induction v as [|h v IH]; intros [|k]; simpl; auto.
Qed.

Lemma vec_size_set (v : list R) (k : Z) (c : R) :
  Vec.size (Vec.set v k c) = Vec.size v.
Proof. unfold Vec.size, Vec.set. now rewrite vec_set_nat_length. Qed.

Lemma nsphere_setPhase_nPhi (s : NSphere.t) (k : Z) (value : R) :
  NSphere.nPhi (snd (NSphere.setPhase s k value)) = NSphere.nPhi s.
Proof.
  unfold NSphere.setPhase, NSphere.nPhi.
  destruct (k <? Vec.size (NSphere.m_phases s)); simpl; [|reflexivity].
  apply vec_size_set.
Qed.

Lemma nsphere_make_nPhi (n : Z) : 0 <= n -> NSphere.nPhi (NSphere.make n) = n.
Proof. intros H. unfold NSphere.nPhi, NSphere.make. simpl. now apply vec_size_repeat. Qed.

Lemma nsphere_x2_nonneg (phases : list R) :
  Forall (fun w => (0 <= w)%R) (NSphere.x2_of phases).
Proof.
  induction phases as [|phi rest IH]; simpl.
  - constructor; [lra | constructor].
  - constructor.
    + apply pow2_ge_0.
    + apply Forall_map. revert IH. apply Forall_impl.
      intros w Hw. apply Rmult_le_pos; [apply pow2_ge_0 | exact Hw].
Qed.

Lemma vec_sum_map_mult (w : R) (v : list R) :
  Vec.sum (map (Rmult w) v) = (w * Vec.sum v)%R.
Proof.
  induction v as [|c v IH]; simpl.
  - unfold Vec.sum. simpl. lra.
  - rewrite !vec_sum_cons, IH. lra.
Qed.

(** The weights of the sphere sum to one. *)
Lemma nsphere_x2_sum (phases : list R) : Vec.sum (NSphere.x2_of phases) = 1%R.
Proof.
  induction phases as [|phi rest IH]; simpl.
  - unfold Vec.sum. simpl. lra.
  - rewrite vec_sum_cons, vec_sum_map_mult, IH.
    pose proof (sin2_cos2 phi) as H. unfold Rsqr in H. simpl. lra.
Qed.

Lemma nsphere_x2_length (phases : list R) :
  length (NSphere.x2_of phases) = S (length phases).
Proof.
  induction phases as [|phi rest IH]; simpl; [reflexivity|].
  now rewrite length_map, IH.
Qed.

Lemma positive3d_setPar_npars (p : Positive3D.t) (k : Z) (value : R) :
  Positive3D.npars (snd (Positive3D.setPar p k value)) = Positive3D.npars p.
Proof.
  unfold Positive3D.setPar, Positive3D.npars, NSphere.setPhase, NSphere.nPhi.
  destruct (k <? Vec.size (NSphere.m_phases (Positive3D.m_sphere p)));
    simpl; [|reflexivity].
  apply vec_size_set.
Qed.

Lemma positive3d_setPars_npars (calls : list (Z * R)) :
  forall p : Positive3D.t,
    Positive3D.npars (Positive3D.setPars p calls) = Positive3D.npars p.
Proof.
  unfold Positive3D.setPars.
  induction calls as [|c calls IH]; intros p; simpl; [reflexivity|].
  rewrite IH. apply positive3d_setPar_npars.
Qed.

(** C8: a Positive3D of degrees (Nx,Ny,Nz) has (Nx+1)(Ny+1)(Nz+1) - 1 free
    parameters, after construction and after any sequence of setter calls
    (7 for degrees (1,1,1)); [setPar] with an index [k >= npars()] returns
    false and leaves sphere and tensor as they were. *)
Theorem C8_positive3d_npars
  (Nx Ny Nz : Z) (xmin xmax ymin ymax zmin zmax : R)
  (calls : list (Z * R)) (p : Positive3D.t) (k : Z) (value : R) :
  UInt.is_ushort Nx -> UInt.is_ushort Ny -> UInt.is_ushort Nz ->
  Positive3D.npars p <= k ->
  Positive3D.npars
    (Positive3D.setPars
       (Positive3D.make Nx Ny Nz xmin xmax ymin ymax zmin zmax) calls)
    = (Nx + 1) * (Ny + 1) * (Nz + 1) - 1 /\
  Positive3D.npars (Positive3D.make 1 1 1 0 1 0 1 0 1) = 7 /\
  Positive3D.setPar p k value = (false, p) /\
  Positive3D.pars (snd (Positive3D.setPar p k value)) = Positive3D.pars p /\
  Positive3D.bpars (snd (Positive3D.setPar p k value)) = Positive3D.bpars p.
Proof.
  intros Hx Hy Hz Hk.
  assert (Hset : Positive3D.setPar p k value = (false, p)).
  { unfold Positive3D.setPar, NSphere.setPhase.
    unfold Positive3D.npars, NSphere.nPhi in Hk.
    destruct (Z.ltb_spec k
                (Vec.size (NSphere.m_phases (Positive3D.m_sphere p))));
      [lia | reflexivity]. }
  repeat apply conj.
  - rewrite positive3d_setPars_npars.
    unfold Positive3D.make, Positive3D.npars. simpl.
    apply nsphere_make_nPhi.
    unfold UInt.is_ushort, UInt.ushort_max in *. nia.
  - unfold Positive3D.make, Positive3D.npars. simpl.
    apply (nsphere_make_nPhi 7). lia.
  - exact Hset.
  - now rewrite Hset.
  - now rewrite Hset.
Qed.

Lemma C8_positive3d_npars_witness :
  Positive3D.npars
    (Positive3D.setPars (Positive3D.make 1 1 1 0 1 0 1 0 1) [(0, 1%R)]) = 7 /\
  Positive3D.setPar (Positive3D.make 1 1 1 0 1 0 1 0 1) 7 1%R
    = (false, Positive3D.make 1 1 1 0 1 0 1 0 1).
Proof.
  assert (U : UInt.is_ushort 1)
    by (unfold UInt.is_ushort, UInt.ushort_max; lia).
  assert (K : Positive3D.npars (Positive3D.make 1 1 1 0 1 0 1 0 1) <= 7)
    by (vm_compute; discriminate).
  pose proof (C8_positive3d_npars 1 1 1 0 1 0 1 0 1 [(0, 1%R)]
                (Positive3D.make 1 1 1 0 1 0 1 0 1) 7 1%R U U U K) as H.
  split; apply H.
Defined.

(** ** Sums over the cube of basis triples *)

Lemma sum1_ext (n : Z) (f g : Z -> R) :
  0 <= n -> (forall i, 0 <= i <= n -> f i = g i) -> sum1 n f = sum1 n g.
Proof.
  intros Hn H. unfold sum1. apply sum_eq. intros i Hi. apply H. lia.
Qed.

Lemma sum1_plus (n : Z) (f g : Z -> R) :
  sum1 n (fun i => (f i + g i)%R) = (sum1 n f + sum1 n g)%R.
Proof. unfold sum1. apply plus_sum. Qed.

Lemma sum1_scal_r (n : Z) (f : Z -> R) (c : R) :
  sum1 n (fun i => (f i * c)%R) = (sum1 n f * c)%R.
Proof.
  unfold sum1. rewrite Rmult_comm.
  symmetry. apply (scal_sum (fun i => f (Z.of_nat i))).
Qed.

Lemma sum1_scal_l (n : Z) (f : Z -> R) (c : R) :
  sum1 n (fun i => (c * f i)%R) = (c * sum1 n f)%R.
Proof.
  rewrite (Rmult_comm c), <- sum1_scal_r.
  unfold sum1. apply sum_eq. intros i _. apply Rmult_comm.
Qed.

Lemma sum3_ext (nx ny nz : Z) (f g : Z -> Z -> Z -> R) :
  0 <= nx -> 0 <= ny -> 0 <= nz ->
  (forall i j k, 0 <= i <= nx -> 0 <= j <= ny -> 0 <= k <= nz ->
                 f i j k = g i j k) ->
  sum3 nx ny nz f = sum3 nx ny nz g.
Proof.
  intros Hx Hy Hz H. unfold sum3.
  apply sum1_ext; [assumption|]. intros i Hi.
  apply sum1_ext; [assumption|]. intros j Hj.
  apply sum1_ext; [assumption|]. intros k Hk.
  now apply H.
Qed.

Lemma sum3_plus (nx ny nz : Z) (f g : Z -> Z -> Z -> R) :
  sum3 nx ny nz (fun i j k => (f i j k + g i j k)%R) =
  (sum3 nx ny nz f + sum3 nx ny nz g)%R.
Proof.
  unfold sum3. rewrite <- sum1_plus.
  unfold sum1 at 1 3. apply sum_eq. intros i _.
  rewrite <- sum1_plus.
  unfold sum1 at 1 3. apply sum_eq. intros j _.
  apply sum1_plus.
Qed.

Lemma sum3_scal_l (nx ny nz : Z) (c : R) (f : Z -> Z -> Z -> R) :
  sum3 nx ny nz (fun i j k => (c * f i j k)%R) = (c * sum3 nx ny nz f)%R.
Proof.
  unfold sum3. rewrite <- sum1_scal_l.
  unfold sum1 at 1 3. apply sum_eq. intros i _.
  rewrite <- sum1_scal_l.
  unfold sum1 at 1 3. apply sum_eq. intros j _.
  apply sum1_scal_l.
Qed.

Lemma sum1_ext_all (n : Z) (f g : Z -> R) :
  (forall i, f i = g i) -> sum1 n f = sum1 n g.
Proof. intros H. unfold sum1. apply sum_eq. intros i _. apply H. Qed.

Lemma sum3_product (nx ny nz : Z) (fx fy fz : Z -> R) :
  sum3 nx ny nz (fun i j k => (fx i * fy j * fz k)%R) =
  (sum1 nx fx * sum1 ny fy * sum1 nz fz)%R.
Proof.
  unfold sum3.
  rewrite Rmult_assoc, <- sum1_scal_r.
  apply sum1_ext_all; intros i.
  rewrite <- sum1_scal_r, <- sum1_scal_l.
  apply sum1_ext_all; intros j.
  rewrite <- Rmult_assoc, <- sum1_scal_l.
  reflexivity.
Qed.

(** A constant added to every coefficient of a weighted triple sum. *)
Lemma sum3_shift (nx ny nz : Z) (c : Z -> Z -> Z -> R) (d : R)
  (fx fy fz : Z -> R) :
  sum3 nx ny nz (fun i j k => ((c i j k + d) * fx i * fy j * fz k)%R) =
  (sum3 nx ny nz (fun i j k => (c i j k * fx i * fy j * fz k)%R)
   + d * (sum1 nx fx * sum1 ny fy * sum1 nz fz))%R.
Proof.
  rewrite <- sum3_product, <- sum3_scal_l, <- sum3_plus.
  unfold sum3.
  apply sum1_ext_all; intros i. apply sum1_ext_all; intros j.
  apply sum1_ext_all; intros k. ring.
Qed.

(** Partition of unity of the Bernstein basis. *)
Lemma bernstein_basis_sum (n : nat) (u : R) :
  sum_f_R0 (fun i => Bernstein.basis n i u) n = 1%R.
Proof.
  unfold Bernstein.basis.
  rewrite <- (binomial u (1 - u) n).
  replace (u + (1 - u))%R with 1%R by ring.
  apply pow1.
Qed.

Lemma bernstein_basic_sum (n : Z) (lo hi x : R) :
  (lo <= x <= hi)%R -> sum1 n (fun i => Bernstein.basic n i lo hi x) = 1%R.
Proof.
  intros Hx. unfold sum1.
  rewrite <- (bernstein_basis_sum (Z.to_nat n) ((x - lo) / (hi - lo))).
  apply sum_eq. intros i _. unfold Bernstein.basic.
  rewrite (Rltb_false x lo), (Rltb_false hi x) by lra.
  simpl. now rewrite Nat2Z.id.
Qed.

(** ** Bernstein3D: evaluation and integration *)

Lemma uint_mul_le (a b : Z) :
  0 <= a -> 0 <= b -> 0 <= UInt.mul a b <= a * b.
Proof.
  intros Ha Hb. unfold UInt.mul.
  pose proof (uint_wrap_range (a * b)). pose proof (uint_wrap_le (a * b)).
  unfold UInt.modulus in *. nia.
Qed.

Lemma uint_add_le (a b : Z) :
  0 <= a -> 0 <= b -> 0 <= UInt.add a b <= a + b.
Proof.
  intros Ha Hb. unfold UInt.add.
  pose proof (uint_wrap_range (a + b)). pose proof (uint_wrap_le (a + b)).
  unfold UInt.modulus in *. lia.
Qed.

(** In-range triples are mapped to stored coefficients. *)
Lemma b3d_index_in_range (b : Bernstein3D.t) (l m n : Z) :
  Bernstein3D.wf b ->
  0 <= l <= Bernstein3D.m_nx b -> 0 <= m <= Bernstein3D.m_ny b ->
  0 <= n <= Bernstein3D.m_nz b ->
  0 <= Bernstein3D.index b l m n < Vec.size (Bernstein3D.m_pars b).
Proof.
  intros (Hx & Hy & Hz & Hsize & _) Hl Hm Hn.
  unfold UInt.is_ushort, UInt.ushort_max in *.
  unfold Bernstein3D.index.
  destruct (Z.gtb_spec l (Bernstein3D.m_nx b)); [lia|].
  destruct (Z.gtb_spec m (Bernstein3D.m_ny b)); [lia|].
  destruct (Z.gtb_spec n (Bernstein3D.m_nz b)); [lia|]. simpl.
  rewrite Hsize.
  set (nx := Bernstein3D.m_nx b) in *. set (ny := Bernstein3D.m_ny b) in *.
  set (nz := Bernstein3D.m_nz b) in *.
  pose proof (uint_mul_le 1 (nz + 1)) as A1.
  set (a1 := UInt.mul 1 (nz + 1)) in *.
  assert (Ha1 : 0 <= a1 <= nz + 1) by lia.
  pose proof (uint_mul_le a1 (ny + 1)) as A2.
  set (a2 := UInt.mul a1 (ny + 1)) in *.
  assert (Ha2 : 0 <= a2 <= (nz + 1) * (ny + 1)) by nia.
  pose proof (uint_mul_le a2 l) as A3.
  set (a3 := UInt.mul a2 l) in *.
  assert (Ha3 : 0 <= a3 <= (nz + 1) * (ny + 1) * nx).
  { split; [lia|]. transitivity (a2 * l); [lia|].
    apply Z.mul_le_mono_nonneg; lia. }
  pose proof (uint_mul_le a1 m) as B1.
  set (b1 := UInt.mul a1 m) in *.
  assert (Hb1 : 0 <= b1 <= (nz + 1) * ny).
  { split; [lia|]. transitivity (a1 * m); [lia|].
    apply Z.mul_le_mono_nonneg; lia. }
  pose proof (uint_add_le a3 b1) as S1.
  set (s1 := UInt.add a3 b1) in *.
  pose proof (uint_add_le s1 n) as S2.
  set (s2 := UInt.add s1 n) in *.
  assert (Hcount : (nx + 1) * (ny + 1) * (nz + 1) =
                   (nz + 1) * (ny + 1) * nx + (nz + 1) * ny + nz + 1) by ring.
  lia.
Qed.

Lemma b3d_evaluate_in_domain (b : Bernstein3D.t) (x y z : R) :
  Bernstein3D.in_domain b x y z ->
  Bernstein3D.evaluate b x y z =
  Bernstein3D.calculate b (fun i => Bernstein3D.m_bx b i x)
    (fun j => Bernstein3D.m_by b j y) (fun k => Bernstein3D.m_bz b k z).
Proof.
  intros (Hx & Hy & Hz). unfold Bernstein3D.evaluate.
  rewrite (Rltb_false x), (Rltb_false _ x), (Rltb_false y),
    (Rltb_false _ y), (Rltb_false z), (Rltb_false _ z) by lra.
  reflexivity.
Qed.



Lemma forall_ones_sum (v : list R) :
  Forall (fun c => c = 1%R) v -> Vec.sum v = IZR (Vec.size v).
Proof.
  unfold Vec.size. induction 1 as [|c v Hc _ IH].
  - unfold Vec.sum. reflexivity.
  - rewrite vec_sum_cons, IH, Hc. simpl length.
    rewrite Nat2Z.inj_succ, succ_IZR. ring.
Qed.








(** ** Adding a constant *)



(** *** The symmetric tensor *)

Lemma sym_slot_in_range (s : Bernstein3DSym.t) (l m n : Z) :
  Bernstein3DSym.wf s ->
  0 <= n -> n <= m -> m <= l -> l <= Bernstein3DSym.m_n s ->
  0 <= Bernstein3DSym.slot s l m n < Vec.size (Bernstein3DSym.m_pars s).
Proof.
  intros (HN & Hsize & _) H0 H1 H2 H3.
  unfold UInt.is_ushort, UInt.ushort_max in HN.
  unfold Bernstein3DSym.slot.
  destruct (Z.gtb_spec l (Bernstein3DSym.m_n s)); [lia|].
  rewrite Hsize. set (N := Bernstein3DSym.m_n s) in *.
  unfold UInt.div.
  pose proof (uint_mul_le 1 l) as P1. set (p1 := UInt.mul 1 l) in *.
  assert (Hp1 : 0 <= p1 <= l) by lia.
  pose proof (uint_mul_le p1 (l + 1)) as P2.
  set (p2 := UInt.mul p1 (l + 1)) in *.
  assert (Hp2 : 0 <= p2 <= l * (l + 1)) by nia.
  pose proof (uint_mul_le p2 (l + 2)) as P3.
  set (p3 := UInt.mul p2 (l + 2)) in *.
  assert (Hp3 : 0 <= p3 <= l * (l + 1) * (l + 2)) by nia.
  pose proof (uint_mul_le 1 m) as Q1. set (q1 := UInt.mul 1 m) in *.
  assert (Hq1 : 0 <= q1 <= m) by lia.
  pose proof (uint_mul_le q1 (m + 1)) as Q2.
  set (q2 := UInt.mul q1 (m + 1)) in *.
  assert (Hq2 : 0 <= q2 <= l * (l + 1)) by nia.
  assert (Hd1 : 0 <= p3 / 6 /\ 6 * (p3 / 6) <= p3).
  { split; [apply Z.div_pos; lia | apply Z.mul_div_le; lia]. }
  assert (Hd2 : 0 <= q2 / 2 /\ 2 * (q2 / 2) <= q2).
  { split; [apply Z.div_pos; lia | apply Z.mul_div_le; lia]. }
  set (d1 := p3 / 6) in *. set (d2 := q2 / 2) in *.
  pose proof (uint_add_le d1 d2) as S1. set (s1 := UInt.add d1 d2) in *.
  pose proof (uint_add_le s1 n) as S2. set (s2 := UInt.add s1 n) in *.
  assert (Hs2 : 0 <= s2 /\ 6 * (s2 + 1) <= (l + 1) * (l + 2) * (l + 3))
    by nia.
  split; [lia|].
  assert (Hle : s2 + 1 <= (N + 1) * (N + 2) * (N + 3) / 6).
  { apply Z.div_le_lower_bound; [lia|].
    assert ((l + 1) * (l + 2) * (l + 3) <= (N + 1) * (N + 2) * (N + 3)).
    { apply Z.mul_le_mono_nonneg;
        first [ lia
              | apply Z.mul_nonneg_nonneg; lia
              | apply Z.mul_le_mono_nonneg; lia ]. }
    lia. }
  lia.
Qed.

Lemma sym_index_in_range (s : Bernstein3DSym.t) (l m n : Z) :
  Bernstein3DSym.wf s ->
  0 <= l <= Bernstein3DSym.m_n s -> 0 <= m <= Bernstein3DSym.m_n s ->
  0 <= n <= Bernstein3DSym.m_n s ->
  0 <= Bernstein3DSym.index s l m n < Vec.size (Bernstein3DSym.m_pars s).
Proof.
  intros Hwf Hl Hm Hn.
  pose proof (sym_index_fuel4 s l m n) as Hfuel. simpl in Hfuel.
  revert Hfuel.
  split_order; intros Hfuel; try lia; injection Hfuel as Hslot;
    rewrite <- Hslot; apply sym_slot_in_range; trivial; lia.
Qed.

Lemma sym_index_fuel_with_pars (f : nat) :
  forall (s : Bernstein3DSym.t) (v : list R) (l m n : Z),
    Bernstein3DSym.index_fuel f (Bernstein3DSym.with_pars s v) l m n =
    Bernstein3DSym.index_fuel f s l m n.
Proof.
  induction f as [|f IH]; intros s v l m n; simpl; [reflexivity|].
  now rewrite !IH.
Qed.

Lemma sym_index_with_pars (s : Bernstein3DSym.t) (v : list R) (l m n : Z) :
  Bernstein3DSym.index (Bernstein3DSym.with_pars s v) l m n =
  Bernstein3DSym.index s l m n.
Proof.
  assert (H : Some (Bernstein3DSym.index (Bernstein3DSym.with_pars s v) l m n)
              = Some (Bernstein3DSym.index s l m n)).
  { now rewrite <- !sym_index_fuel4, sym_index_fuel_with_pars. }
  now injection H.
Qed.

Lemma sym_add_assign_par3 (s : Bernstein3DSym.t) (a : R) (l m n : Z) :
  Bernstein3DSym.wf s ->
  0 <= l <= Bernstein3DSym.m_n s -> 0 <= m <= Bernstein3DSym.m_n s ->
  0 <= n <= Bernstein3DSym.m_n s ->
  Bernstein3DSym.par3 (Bernstein3DSym.op_add_assign s a) l m n =
  (Bernstein3DSym.par3 s l m n + a / IZR (Bernstein3DSym.ntriples s))%R.
Proof.
  intros Hwf Hl Hm Hn.
  pose proof (sym_index_in_range s l m n Hwf Hl Hm Hn) as Hidx.
  unfold Bernstein3DSym.par3, Bernstein3DSym.par,
    Bernstein3DSym.op_add_assign.
  rewrite sym_index_with_pars.
  unfold Bernstein3DSym.with_pars. cbn [Bernstein3DSym.m_pars].
  rewrite vec_size_map.
  destruct (Z.ltb_spec (Bernstein3DSym.index s l m n)
              (Vec.size (Bernstein3DSym.m_pars s))); [|lia].
  now rewrite vec_get_map.
Qed.

Lemma sym_evaluate_in_domain (s : Bernstein3DSym.t) (x y z : R) :
  Bernstein3DSym.in_domain s x y z ->
  Bernstein3DSym.evaluate s x y z =
  Bernstein3DSym.calculate s (fun i => Bernstein3DSym.m_b s i x)
    (fun j => Bernstein3DSym.m_b s j y) (fun k => Bernstein3DSym.m_b s k z).
Proof.
  intros (Hx & Hy & Hz). unfold Bernstein3DSym.evaluate.
  rewrite (Rltb_false x), (Rltb_false _ x), (Rltb_false y),
    (Rltb_false _ y), (Rltb_false z), (Rltb_false _ z) by lra.
  reflexivity.
Qed.

Lemma sym_add_assign_evaluate (s : Bernstein3DSym.t) (a x y z : R) :
  Bernstein3DSym.wf s -> Bernstein3DSym.in_domain s x y z ->
  Bernstein3DSym.evaluate (Bernstein3DSym.op_add_assign s a) x y z =
  (Bernstein3DSym.evaluate s x y z + a / IZR (Bernstein3DSym.ntriples s))%R.
Proof.
  intros Hwf Hdom.
  rewrite (sym_evaluate_in_domain s x y z Hdom).
  rewrite (sym_evaluate_in_domain (Bernstein3DSym.op_add_assign s a)
             x y z Hdom).
  unfold Bernstein3DSym.calculate.
  change (Bernstein3DSym.m_n (Bernstein3DSym.op_add_assign s a))
    with (Bernstein3DSym.m_n s).
  pose proof Hwf as (HN & _). unfold UInt.is_ushort in HN.
  rewrite (sum3_ext _ _ _ _
             (fun i j k =>
                ((Bernstein3DSym.par3 s i j k
                  + a / IZR (Bernstein3DSym.ntriples s))
                 * Bernstein3DSym.m_b s i x * Bernstein3DSym.m_b s j y
                 * Bernstein3DSym.m_b s k z)%R)); try lia.
  - rewrite sum3_shift. destruct Hdom as (Hx & Hy & Hz).
    unfold Bernstein3DSym.m_b.
    rewrite !bernstein_basic_sum by assumption. ring.
  - intros i j k Hi Hj Hk.
    now rewrite (sym_add_assign_par3 s a i j k Hwf Hi Hj Hk).
Qed.

(** *** The partially symmetric tensor *)

Lemma mix_slot_in_range (b : Bernstein3DMix.t) (l m n : Z) :
  Bernstein3DMix.wf b ->
  0 <= m -> m <= l -> l <= Bernstein3DMix.m_n b ->
  0 <= n <= Bernstein3DMix.m_nz b ->
  0 <= Bernstein3DMix.slot b l m n < Vec.size (Bernstein3DMix.m_pars b).
Proof.
  intros (HN & HNz & Hsize & _) H0 H1 H2 H3.
  unfold UInt.is_ushort, UInt.ushort_max in HN, HNz.
  unfold Bernstein3DMix.slot.
  destruct (Z.gtb_spec l (Bernstein3DMix.m_n b)); [lia|].
  destruct (Z.gtb_spec n (Bernstein3DMix.m_nz b)); [lia|].
  rewrite Hsize. set (N := Bernstein3DMix.m_n b) in *.
  set (Nz := Bernstein3DMix.m_nz b) in *.
  unfold UInt.div.
  pose proof (uint_mul_le 1 l) as P1. set (p1 := UInt.mul 1 l) in *.
  assert (Hp1 : 0 <= p1 <= l) by lia.
  pose proof (uint_mul_le p1 (l + 1)) as P2.
  set (p2 := UInt.mul p1 (l + 1)) in *.
  assert (Hp2 : 0 <= p2 <= l * (l + 1)) by nia.
  assert (Hd : 0 <= p2 / 2 /\ 2 * (p2 / 2) <= p2).
  { split; [apply Z.div_pos; lia | apply Z.mul_div_le; lia]. }
  set (d := p2 / 2) in *.
  pose proof (uint_add_le d m) as E1. set (e := UInt.add d m) in *.
  assert (He : 0 <= e /\ 2 * (e + 1) <= (l + 1) * (l + 2)) by nia.
  assert (Hhalf : e + 1 <= (N + 1) * (N + 2) / 2).
  { apply Z.div_le_lower_bound; [lia|].
    assert ((l + 1) * (l + 2) <= (N + 1) * (N + 2))
      by (apply Z.mul_le_mono_nonneg; lia).
    lia. }
  set (half := (N + 1) * (N + 2) / 2) in *.
  pose proof (uint_mul_le e (Nz + 1)) as F1.
  set (f := UInt.mul e (Nz + 1)) in *.
  pose proof (uint_add_le f n) as G1. set (g := UInt.add f n) in *.
  nia.
Qed.

Lemma mix_index_in_range (b : Bernstein3DMix.t) (l m n : Z) :
  Bernstein3DMix.wf b ->
  0 <= l <= Bernstein3DMix.m_n b -> 0 <= m <= Bernstein3DMix.m_n b ->
  0 <= n <= Bernstein3DMix.m_nz b ->
  0 <= Bernstein3DMix.index b l m n < Vec.size (Bernstein3DMix.m_pars b).
Proof.
  intros Hwf Hl Hm Hn.
  pose proof (mix_index_fuel2 b l m n) as Hfuel. simpl in Hfuel.
  revert Hfuel.
  split_order; intros Hfuel; try lia; injection Hfuel as Hslot;
    rewrite <- Hslot; apply mix_slot_in_range; trivial; lia.
Qed.

Lemma mix_index_fuel_with_pars (f : nat) :
  forall (b : Bernstein3DMix.t) (v : list R) (l m n : Z),
    Bernstein3DMix.index_fuel f (Bernstein3DMix.with_pars b v) l m n =
    Bernstein3DMix.index_fuel f b l m n.
Proof.
  induction f as [|f IH]; intros b v l m n; simpl; [reflexivity|].
  now rewrite !IH.
Qed.

Lemma mix_index_with_pars (b : Bernstein3DMix.t) (v : list R) (l m n : Z) :
  Bernstein3DMix.index (Bernstein3DMix.with_pars b v) l m n =
  Bernstein3DMix.index b l m n.
Proof.
  assert (H : Some (Bernstein3DMix.index (Bernstein3DMix.with_pars b v) l m n)
              = Some (Bernstein3DMix.index b l m n)).
  { now rewrite <- !mix_index_fuel2, mix_index_fuel_with_pars. }
  now injection H.
Qed.

Lemma mix_add_assign_par3 (b : Bernstein3DMix.t) (a : R) (l m n : Z) :
  Bernstein3DMix.wf b ->
  0 <= l <= Bernstein3DMix.m_n b -> 0 <= m <= Bernstein3DMix.m_n b ->
  0 <= n <= Bernstein3DMix.m_nz b ->
  Bernstein3DMix.par3 (Bernstein3DMix.op_add_assign b a) l m n =
  (Bernstein3DMix.par3 b l m n + a / IZR (Bernstein3DMix.ntriples b))%R.
Proof.
  intros Hwf Hl Hm Hn.
  pose proof (mix_index_in_range b l m n Hwf Hl Hm Hn) as Hidx.
  unfold Bernstein3DMix.par3, Bernstein3DMix.par,
    Bernstein3DMix.op_add_assign.
  rewrite mix_index_with_pars.
  unfold Bernstein3DMix.with_pars. cbn [Bernstein3DMix.m_pars].
  rewrite vec_size_map.
  destruct (Z.ltb_spec (Bernstein3DMix.index b l m n)
              (Vec.size (Bernstein3DMix.m_pars b))); [|lia].
  now rewrite vec_get_map.
Qed.

Lemma mix_evaluate_in_domain (b : Bernstein3DMix.t) (x y z : R) :
  Bernstein3DMix.in_domain b x y z ->
  Bernstein3DMix.evaluate b x y z =
  Bernstein3DMix.calculate b (fun i => Bernstein3DMix.m_b b i x)
    (fun j => Bernstein3DMix.m_b b j y) (fun k => Bernstein3DMix.m_bz b k z).
Proof.
  intros (Hx & Hy & Hz). unfold Bernstein3DMix.evaluate.
  rewrite (Rltb_false x), (Rltb_false _ x), (Rltb_false y),
    (Rltb_false _ y), (Rltb_false z), (Rltb_false _ z) by lra.
  reflexivity.
Qed.

Lemma mix_add_assign_evaluate (b : Bernstein3DMix.t) (a x y z : R) :
  Bernstein3DMix.wf b -> Bernstein3DMix.in_domain b x y z ->
  Bernstein3DMix.evaluate (Bernstein3DMix.op_add_assign b a) x y z =
  (Bernstein3DMix.evaluate b x y z + a / IZR (Bernstein3DMix.ntriples b))%R.
Proof.
  intros Hwf Hdom.
  rewrite (mix_evaluate_in_domain b x y z Hdom).
  rewrite (mix_evaluate_in_domain (Bernstein3DMix.op_add_assign b a)
             x y z Hdom).
  unfold Bernstein3DMix.calculate.
  change (Bernstein3DMix.m_n (Bernstein3DMix.op_add_assign b a))
    with (Bernstein3DMix.m_n b).
  change (Bernstein3DMix.m_nz (Bernstein3DMix.op_add_assign b a))
    with (Bernstein3DMix.m_nz b).
  pose proof Hwf as (HN & HNz & _). unfold UInt.is_ushort in HN, HNz.
  rewrite (sum3_ext _ _ _ _
             (fun i j k =>
                ((Bernstein3DMix.par3 b i j k
                  + a / IZR (Bernstein3DMix.ntriples b))
                 * Bernstein3DMix.m_b b i x * Bernstein3DMix.m_b b j y
                 * Bernstein3DMix.m_bz b k z)%R)); try lia.
  - rewrite sum3_shift. destruct Hdom as (Hx & Hy & Hz).
    unfold Bernstein3DMix.m_b, Bernstein3DMix.m_bz.
    rewrite !bernstein_basic_sum by assumption. ring.
  - intros i j k Hi Hj Hk.
    now rewrite (mix_add_assign_par3 b a i j k Hwf Hi Hj Hk).
Qed.





(** ** The positive wrappers stay in sync with their sphere *)

Lemma positive3d_setPar_state (p : Positive3D.t) (k : Z) (value : R) :
  Positive3D.synced p ->
  Positive3D.synced (snd (Positive3D.setPar p k value)) /\
  Positive3D.nX (snd (Positive3D.setPar p k value)) = Positive3D.nX p /\
  Positive3D.nY (snd (Positive3D.setPar p k value)) = Positive3D.nY p /\
  Positive3D.nZ (snd (Positive3D.setPar p k value)) = Positive3D.nZ p.
Proof.
  intros Hp. unfold Positive3D.setPar, NSphere.setPhase.
  destruct (k <? Vec.size (NSphere.m_phases (Positive3D.m_sphere p)));
    simpl; repeat split; trivial.
Qed.

Lemma positive3d_setPars_state (calls : list (Z * R)) :
  forall p : Positive3D.t,
    Positive3D.synced p ->
    Positive3D.synced (Positive3D.setPars p calls) /\
    Positive3D.nX (Positive3D.setPars p calls) = Positive3D.nX p /\
    Positive3D.nY (Positive3D.setPars p calls) = Positive3D.nY p /\
    Positive3D.nZ (Positive3D.setPars p calls) = Positive3D.nZ p.
Proof.
  unfold Positive3D.setPars.
  induction calls as [|c calls IH]; intros p Hp; simpl; [tauto|].
  destruct (positive3d_setPar_state p (fst c) (snd c) Hp)
    as (Hs & Hx & Hy & Hz).
  destruct (IH _ Hs) as (Hs' & Hx' & Hy' & Hz').
  repeat split; congruence.
Qed.

Lemma positive3d_make_synced
  (Nx Ny Nz : Z) (xmin xmax ymin ymax zmin zmax : R) :
  Positive3D.synced (Positive3D.make Nx Ny Nz xmin xmax ymin ymax zmin zmax).
Proof. reflexivity. Qed.

Lemma positive3dsym_setPars_synced (calls : list (Z * R)) :
  forall p : Positive3DSym.t,
    Positive3DSym.synced p ->
    Positive3DSym.synced (Positive3DSym.setPars p calls).
Proof.
  unfold Positive3DSym.setPars.
  induction calls as [|c calls IH]; intros p Hp; simpl; [exact Hp|].
  apply IH. unfold Positive3DSym.setPar, NSphere.setPhase.
  destruct (fst c <? Vec.size (NSphere.m_phases (Positive3DSym.m_sphere p)));
    simpl; [reflexivity | exact Hp].
Qed.

Lemma positive3dmix_setPars_synced (calls : list (Z * R)) :
  forall p : Positive3DMix.t,
    Positive3DMix.synced p ->
    Positive3DMix.synced (Positive3DMix.setPars p calls).
Proof.
  unfold Positive3DMix.setPars.
  induction calls as [|c calls IH]; intros p Hp; simpl; [exact Hp|].
  apply IH. unfold Positive3DMix.setPar, NSphere.setPhase.
  destruct (fst c <? Vec.size (NSphere.m_phases (Positive3DMix.m_sphere p)));
    simpl; [reflexivity | exact Hp].
Qed.

(** Whatever the parameters of the sphere, the coefficients of the three
    positive wrappers are non-negative and sum to 1. *)
Lemma positive_coefficients_on_simplex
  (Nx Ny Nz N : Z) (xmin xmax ymin ymax zmin zmax : R)
  (calls : list (Z * R)) :
  (let p := Positive3D.setPars
              (Positive3D.make Nx Ny Nz xmin xmax ymin ymax zmin zmax) calls in
   Forall (fun c => (0 <= c)%R) (Positive3D.bpars p) /\
   Vec.sum (Positive3D.bpars p) = 1%R) /\
  (let p := Positive3DSym.setPars (Positive3DSym.make N xmin xmax) calls in
   Forall (fun c => (0 <= c)%R) (Positive3DSym.bpars p) /\
   Vec.sum (Positive3DSym.bpars p) = 1%R) /\
  (let p := Positive3DMix.setPars
              (Positive3DMix.make N Nz xmin xmax zmin zmax) calls in
   Forall (fun c => (0 <= c)%R) (Positive3DMix.bpars p) /\
   Vec.sum (Positive3DMix.bpars p) = 1%R).
Proof.
  repeat apply conj; cbv zeta.
  - destruct (positive3d_setPars_state calls _
                (positive3d_make_synced Nx Ny Nz xmin xmax ymin ymax
                   zmin zmax)) as (Hs & _).
    rewrite Hs. apply nsphere_x2_nonneg.
  - destruct (positive3d_setPars_state calls _
                (positive3d_make_synced Nx Ny Nz xmin xmax ymin ymax
                   zmin zmax)) as (Hs & _).
    rewrite Hs. apply nsphere_x2_sum.
  - rewrite (positive3dsym_setPars_synced calls
               (Positive3DSym.make N xmin xmax) eq_refl).
    apply nsphere_x2_nonneg.
  - rewrite (positive3dsym_setPars_synced calls
               (Positive3DSym.make N xmin xmax) eq_refl).
    apply nsphere_x2_sum.
  - rewrite (positive3dmix_setPars_synced calls
               (Positive3DMix.make N Nz xmin xmax zmin zmax) eq_refl).
    apply nsphere_x2_nonneg.
  - rewrite (positive3dmix_setPars_synced calls
               (Positive3DMix.make N Nz xmin xmax zmin zmax) eq_refl).
    apply nsphere_x2_sum.
Qed.

(** * Further properties of the index maps *)

(** ** Bernstein3D: the flat index is a mixed-radix number *)

Lemma uint_wrap_mul_l (a b : Z) : UInt.wrap (UInt.wrap a * b) = UInt.wrap (a * b).
Proof. unfold UInt.wrap. apply Z.mul_mod_idemp_l. discriminate. Qed.

Lemma uint_wrap_add_l (a b : Z) : UInt.wrap (UInt.wrap a + b) = UInt.wrap (a + b).
Proof. unfold UInt.wrap. apply Z.add_mod_idemp_l. discriminate. Qed.

Lemma uint_wrap_add_r (a b : Z) : UInt.wrap (a + UInt.wrap b) = UInt.wrap (a + b).
Proof. unfold UInt.wrap. apply Z.add_mod_idemp_r. discriminate. Qed.

Lemma uint_wrap_add_mid (a b c : Z) :
  UInt.wrap (a + UInt.wrap b + c) = UInt.wrap (a + b + c).
Proof.
  rewrite <- (uint_wrap_add_l (a + UInt.wrap b) c), uint_wrap_add_r,
    uint_wrap_add_l.
  reflexivity.
Qed.

Lemma uint_wrap_small (a : Z) : 0 <= a < UInt.modulus -> UInt.wrap a = a.
Proof. intros H. unfold UInt.wrap. now apply Z.mod_small. Qed.

(** For a triple that passes the guard, [index] is the mixed-radix value of
    the triple, reduced modulo 2^32. *)
Lemma b3d_index_mod (b : Bernstein3D.t) (l m n : Z) :
  l <= Bernstein3D.m_nx b -> m <= Bernstein3D.m_ny b ->
  n <= Bernstein3D.m_nz b ->
  Bernstein3D.index b l m n =
  UInt.wrap ((Bernstein3D.m_nz b + 1) * (Bernstein3D.m_ny b + 1) * l +
             (Bernstein3D.m_nz b + 1) * m + n).
Proof.
  intros Hl Hm Hn. unfold Bernstein3D.index.
  destruct (Z.gtb_spec l (Bernstein3D.m_nx b)); [lia|].
  destruct (Z.gtb_spec m (Bernstein3D.m_ny b)); [lia|].
  destruct (Z.gtb_spec n (Bernstein3D.m_nz b)); [lia|]. simpl.
  unfold UInt.add, UInt.mul.
  rewrite !uint_wrap_mul_l.
  rewrite <- !Z.mul_assoc, !uint_wrap_mul_l.
  rewrite uint_wrap_add_l, uint_wrap_add_mid, <- Z.add_assoc, uint_wrap_add_l.
  f_equal. ring.
Qed.

Lemma b3d_index_exact (b : Bernstein3D.t) (l m n : Z) :
  Bernstein3D.wf b -> Bernstein3D.npars b <= 4294967296 ->
  0 <= l <= Bernstein3D.m_nx b -> 0 <= m <= Bernstein3D.m_ny b ->
  0 <= n <= Bernstein3D.m_nz b ->
  Bernstein3D.index b l m n =
  (Bernstein3D.m_nz b + 1) * (Bernstein3D.m_ny b + 1) * l +
  (Bernstein3D.m_nz b + 1) * m + n.
Proof.
  intros (Hx & Hy & Hz & Hsize & _) Hsmall Hl Hm Hn.
  unfold UInt.is_ushort, UInt.ushort_max, Bernstein3D.npars in *.
  rewrite b3d_index_mod by lia.
  apply uint_wrap_small. unfold UInt.modulus.
  set (nx := Bernstein3D.m_nx b) in *. set (ny := Bernstein3D.m_ny b) in *.
  set (nz := Bernstein3D.m_nz b) in *.
  assert (H1 : 0 <= (nz + 1) * (ny + 1) * l <= (nz + 1) * (ny + 1) * nx).
  { split; [apply Z.mul_nonneg_nonneg; [apply Z.mul_nonneg_nonneg|]; lia|].
    apply Z.mul_le_mono_nonneg_l; [apply Z.mul_nonneg_nonneg|]; lia. }
  assert (H2 : 0 <= (nz + 1) * m <= (nz + 1) * ny).
  { split; [apply Z.mul_nonneg_nonneg; lia|].
    apply Z.mul_le_mono_nonneg_l; lia. }
  assert (Hcount : (nx + 1) * (ny + 1) * (nz + 1) =
                   (nz + 1) * (ny + 1) * nx + (nz + 1) * ny + nz + 1) by ring.
  lia.
Qed.

(** Uniqueness of the digits of a two-digit number in base [B]. *)
Lemma radix_unique (B q r q' r' : Z) :
  0 <= r < B -> 0 <= r' < B -> B * q + r = B * q' + r' -> q = q' /\ r = r'.
Proof.
  intros Hr Hr' H.
  assert (q = q') by nia.
  subst. lia.
Qed.

(** Every number below the number of coefficients is the mixed-radix value
    of an in-range triple. *)
Lemma b3d_decode (b : Bernstein3D.t) (k : Z) :
  Bernstein3D.wf b ->
  0 <= k < (Bernstein3D.m_nx b + 1) * (Bernstein3D.m_ny b + 1) *
           (Bernstein3D.m_nz b + 1) ->
  exists l m n,
    0 <= l <= Bernstein3D.m_nx b /\ 0 <= m <= Bernstein3D.m_ny b /\
    0 <= n <= Bernstein3D.m_nz b /\
    (Bernstein3D.m_nz b + 1) * (Bernstein3D.m_ny b + 1) * l +
    (Bernstein3D.m_nz b + 1) * m + n = k.
Proof.
  intros (Hx & Hy & Hz & _) Hk.
  unfold UInt.is_ushort, UInt.ushort_max in *.
  set (nx := Bernstein3D.m_nx b) in *. set (ny := Bernstein3D.m_ny b) in *.
  set (nz := Bernstein3D.m_nz b) in *.
  exists (k / (nz + 1) / (ny + 1)), ((k / (nz + 1)) mod (ny + 1)),
    (k mod (nz + 1)).
  pose proof (Z.mod_pos_bound k (nz + 1)) as Hn.
  pose proof (Z.mod_pos_bound (k / (nz + 1)) (ny + 1)) as Hm.
  pose proof (Z.div_mod k (nz + 1)) as Dk.
  pose proof (Z.div_mod (k / (nz + 1)) (ny + 1)) as Dq.
  assert (Hq : 0 <= k / (nz + 1)) by (apply Z.div_pos; lia).
  assert (Hl : 0 <= k / (nz + 1) / (ny + 1)) by (apply Z.div_pos; lia).
  assert (Hq' : k / (nz + 1) < (nx + 1) * (ny + 1)).
  { apply Z.div_lt_upper_bound; [lia|].
    replace ((nz + 1) * ((nx + 1) * (ny + 1)))
      with ((nx + 1) * (ny + 1) * (nz + 1)) by ring. lia. }
  assert (Hl' : k / (nz + 1) / (ny + 1) < nx + 1).
  { apply Z.div_lt_upper_bound; [lia|].
    replace ((ny + 1) * (nx + 1)) with ((nx + 1) * (ny + 1)) by ring. lia. }
  set (q := k / (nz + 1)) in *. set (l := q / (ny + 1)) in *.
  set (m := q mod (ny + 1)) in *. set (n := k mod (nz + 1)) in *.
  assert (E : (nz + 1) * (ny + 1) * l + (nz + 1) * m + n = k).
  { replace ((nz + 1) * (ny + 1) * l + (nz + 1) * m + n)
      with ((nz + 1) * ((ny + 1) * l + m) + n) by ring.
    rewrite <- Dq by lia. rewrite <- Dk by lia. reflexivity. }
  repeat split; lia.
Qed.

(** X1: for every well-formed Bernstein3D with at most 2^32 coefficients,
    two in-range triples with the same flat index are equal: no two basis
    triples share a coefficient. *)
Theorem X_b3d_index_injective
  (b : Bernstein3D.t) (l m n l' m' n' : Z) :
  Bernstein3D.wf b -> Bernstein3D.npars b <= 4294967296 ->
  0 <= l <= Bernstein3D.m_nx b -> 0 <= m <= Bernstein3D.m_ny b ->
  0 <= n <= Bernstein3D.m_nz b ->
  0 <= l' <= Bernstein3D.m_nx b -> 0 <= m' <= Bernstein3D.m_ny b ->
  0 <= n' <= Bernstein3D.m_nz b ->
  Bernstein3D.index b l m n = Bernstein3D.index b l' m' n' ->
  l = l' /\ m = m' /\ n = n'.
Proof.
  intros Hwf Hsmall Hl Hm Hn Hl' Hm' Hn' E.
  rewrite (b3d_index_exact b l m n), (b3d_index_exact b l' m' n') in E
    by assumption.
  set (ny := Bernstein3D.m_ny b) in *. set (nz := Bernstein3D.m_nz b) in *.
  replace ((nz + 1) * (ny + 1) * l + (nz + 1) * m + n)
    with ((nz + 1) * ((ny + 1) * l + m) + n) in E by ring.
  replace ((nz + 1) * (ny + 1) * l' + (nz + 1) * m' + n')
    with ((nz + 1) * ((ny + 1) * l' + m') + n') in E by ring.
  apply radix_unique in E; [|lia|lia]. destruct E as [E En].
  apply radix_unique in E; [|lia|lia]. tauto.
Qed.

Lemma X_b3d_index_injective_witness : 1 = 1 /\ 0 = 0 /\ 1 = 1.
Proof.
  apply (X_b3d_index_injective Examples.cube111 1 0 1 1 0 1 cube111_wf);
    first [ reflexivity | vm_compute; discriminate | simpl; lia ].
Defined.

(** X2: for every well-formed Bernstein3D with at most 2^32 coefficients,
    every flat index below [npars ()] is the index of an in-range triple:
    every stored coefficient can be reached through [par ( l , m , n )]. *)
Theorem X_b3d_index_surjective (b : Bernstein3D.t) (k : Z) :
  Bernstein3D.wf b -> Bernstein3D.npars b <= 4294967296 ->
  0 <= k < Bernstein3D.npars b ->
  exists l m n,
    0 <= l <= Bernstein3D.m_nx b /\ 0 <= m <= Bernstein3D.m_ny b /\
    0 <= n <= Bernstein3D.m_nz b /\ Bernstein3D.index b l m n = k.
Proof.
  intros Hwf Hsmall Hk.
  pose proof Hwf as (_ & _ & _ & Hsize & _).
  unfold Bernstein3D.npars in *.
  destruct (b3d_decode b k Hwf) as (l & m & n & Hl & Hm & Hn & E); [lia|].
  exists l, m, n. repeat split; try lia.
  rewrite b3d_index_exact; trivial.
Qed.

Lemma X_b3d_index_surjective_witness :
  exists l m n,
    0 <= l <= 1 /\ 0 <= m <= 1 /\ 0 <= n <= 1 /\
    Bernstein3D.index Examples.cube111 l m n = 6.
Proof.
  apply (X_b3d_index_surjective Examples.cube111 6 cube111_wf);
    [ vm_compute; discriminate | vm_compute; split; [discriminate | reflexivity] ].
Defined.

(** X3: a well-formed Bernstein3D with more than 2^32 coefficients has an
    in-range triple other than (0,0,0) whose flat index is that of (0,0,0):
    the two share one stored coefficient. *)
Theorem X_b3d_index_aliases_when_oversized (b : Bernstein3D.t) :
  Bernstein3D.wf b -> 4294967296 < Bernstein3D.npars b ->
  exists l m n,
    0 <= l <= Bernstein3D.m_nx b /\ 0 <= m <= Bernstein3D.m_ny b /\
    0 <= n <= Bernstein3D.m_nz b /\
    (l, m, n) <> (0, 0, 0) /\
    Bernstein3D.index b l m n = Bernstein3D.index b 0 0 0 /\
    Bernstein3D.par3 b l m n = Bernstein3D.par3 b 0 0 0.
Proof.
  intros Hwf Hbig.
  pose proof Hwf as (Hx & Hy & Hz & Hsize & _).
  unfold UInt.is_ushort, Bernstein3D.npars in *.
  destruct (b3d_decode b 4294967296 Hwf) as (l & m & n & Hl & Hm & Hn & E);
    [lia|].
  assert (Hidx : Bernstein3D.index b l m n = Bernstein3D.index b 0 0 0).
  { rewrite (b3d_index_mod b l m n), (b3d_index_mod b 0 0 0) by lia.
    rewrite E. rewrite !Z.mul_0_r. reflexivity. }
  exists l, m, n.
  split; [exact Hl | split; [exact Hm | split; [exact Hn |]]].
  split; [| split; [exact Hidx |]].
  - intros H. injection H as -> -> ->. rewrite !Z.mul_0_r in E. discriminate.
  - unfold Bernstein3D.par3. now rewrite Hidx.
Qed.

Lemma oversized_wf : Bernstein3D.wf Examples.oversized.
Proof.
  apply (b3d_wf_mk_repeat 1 65535 65535 0%R 8589934592 0 1 0 1 0 1);
    unfold UInt.is_ushort, UInt.ushort_max; try lia; try lra.
Qed.

Lemma oversized_npars : Bernstein3D.npars Examples.oversized = 8589934592.
Proof.
  unfold Bernstein3D.npars.
  change (Bernstein3D.m_pars Examples.oversized)
    with (repeat 0%R (Z.to_nat 8589934592)).
  apply vec_size_repeat. lia.
Qed.

Lemma X_b3d_index_aliases_when_oversized_witness :
  exists l m n,
    0 <= l <= Bernstein3D.m_nx Examples.oversized /\
    0 <= m <= Bernstein3D.m_ny Examples.oversized /\
    0 <= n <= Bernstein3D.m_nz Examples.oversized /\
    (l, m, n) <> (0, 0, 0) /\
    Bernstein3D.index Examples.oversized l m n =
    Bernstein3D.index Examples.oversized 0 0 0 /\
    Bernstein3D.par3 Examples.oversized l m n =
    Bernstein3D.par3 Examples.oversized 0 0 0.
Proof.
  apply (X_b3d_index_aliases_when_oversized Examples.oversized oversized_wf).
  rewrite oversized_npars. lia.
Defined.

(** ** In-range triples and the sentinel *)

(** X4: for every well-formed tensor of the three classes, a triple whose
    components are within the degrees is mapped by [index] to a flat index
    below [npars ()], also where the 32-bit products wrap, so that
    [par ( l , m , n )] reads the stored coefficient at that index and never
    falls back to 0. *)
Theorem X_index_in_range_is_a_slot
  (b : Bernstein3D.t) (s : Bernstein3DSym.t) (x : Bernstein3DMix.t)
  (l m n : Z) :
  (Bernstein3D.wf b ->
   0 <= l <= Bernstein3D.m_nx b -> 0 <= m <= Bernstein3D.m_ny b ->
   0 <= n <= Bernstein3D.m_nz b ->
   0 <= Bernstein3D.index b l m n < Bernstein3D.npars b /\
   Bernstein3D.par3 b l m n =
   Vec.get (Bernstein3D.m_pars b) (Bernstein3D.index b l m n)) /\
  (Bernstein3DSym.wf s ->
   0 <= l <= Bernstein3DSym.m_n s -> 0 <= m <= Bernstein3DSym.m_n s ->
   0 <= n <= Bernstein3DSym.m_n s ->
   0 <= Bernstein3DSym.index s l m n < Bernstein3DSym.npars s /\
   Bernstein3DSym.par3 s l m n =
   Vec.get (Bernstein3DSym.m_pars s) (Bernstein3DSym.index s l m n)) /\
  (Bernstein3DMix.wf x ->
   0 <= l <= Bernstein3DMix.m_n x -> 0 <= m <= Bernstein3DMix.m_n x ->
   0 <= n <= Bernstein3DMix.m_nz x ->
   0 <= Bernstein3DMix.index x l m n < Bernstein3DMix.npars x /\
   Bernstein3DMix.par3 x l m n =
   Vec.get (Bernstein3DMix.m_pars x) (Bernstein3DMix.index x l m n)).
Proof.
  repeat apply conj.
  - intros Hwf Hl Hm Hn.
    pose proof (b3d_index_in_range b l m n Hwf Hl Hm Hn) as H.
    split; [exact H|]. unfold Bernstein3D.par3, Bernstein3D.par.
    destruct (Z.ltb_spec (Bernstein3D.index b l m n)
                (Vec.size (Bernstein3D.m_pars b))); [reflexivity | lia].
  - intros Hwf Hl Hm Hn.
    pose proof (sym_index_in_range s l m n Hwf Hl Hm Hn) as H.
    split; [exact H|]. unfold Bernstein3DSym.par3, Bernstein3DSym.par.
    destruct (Z.ltb_spec (Bernstein3DSym.index s l m n)
                (Vec.size (Bernstein3DSym.m_pars s))); [reflexivity | lia].
  - intros Hwf Hl Hm Hn.
    pose proof (mix_index_in_range x l m n Hwf Hl Hm Hn) as H.
    split; [exact H|]. unfold Bernstein3DMix.par3, Bernstein3DMix.par.
    destruct (Z.ltb_spec (Bernstein3DMix.index x l m n)
                (Vec.size (Bernstein3DMix.m_pars x))); [reflexivity | lia].
Qed.

Lemma X_index_in_range_is_a_slot_witness :
  Bernstein3D.index Examples.cube111 1 0 1
    < Bernstein3D.npars Examples.cube111 /\
  Bernstein3DSym.index Examples.sym2 1 0 1
    < Bernstein3DSym.npars Examples.sym2 /\
  Bernstein3DMix.index Examples.mix11 1 0 1
    < Bernstein3DMix.npars Examples.mix11.
Proof.
  destruct (X_index_in_range_is_a_slot Examples.cube111 Examples.sym2
              Examples.mix11 1 0 1) as (H1 & H2 & H3).
  repeat apply conj.
  - apply (H1 cube111_wf); simpl; lia.
  - apply (H2 sym2_wf); simpl; lia.
  - apply (H3 mix11_wf); simpl; lia.
Defined.

(** X5: for every well-formed tensor of the three classes with at most
    4294967295 coefficients and every triple of non-negative components,
    [index] returns the sentinel 4294967295 exactly when a component is
    above its degree. *)
Theorem X_index_sentinel_iff_out_of_range
  (b : Bernstein3D.t) (s : Bernstein3DSym.t) (x : Bernstein3DMix.t)
  (l m n : Z) :
  0 <= l -> 0 <= m -> 0 <= n ->
  (Bernstein3D.wf b -> Bernstein3D.npars b <= 4294967295 ->
   (Bernstein3D.index b l m n = 4294967295 <->
    l > Bernstein3D.m_nx b \/ m > Bernstein3D.m_ny b \/
    n > Bernstein3D.m_nz b)) /\
  (Bernstein3DSym.wf s -> Bernstein3DSym.npars s <= 4294967295 ->
   (Bernstein3DSym.index s l m n = 4294967295 <->
    l > Bernstein3DSym.m_n s \/ m > Bernstein3DSym.m_n s \/
    n > Bernstein3DSym.m_n s)) /\
  (Bernstein3DMix.wf x -> Bernstein3DMix.npars x <= 4294967295 ->
   (Bernstein3DMix.index x l m n = 4294967295 <->
    l > Bernstein3DMix.m_n x \/ m > Bernstein3DMix.m_n x \/
    n > Bernstein3DMix.m_nz x)).
Proof.
  intros Hl Hm Hn. repeat apply conj.
  - intros Hwf Hsize. split.
    + intros E.
      destruct (Z_le_gt_dec l (Bernstein3D.m_nx b)); [|tauto].
      destruct (Z_le_gt_dec m (Bernstein3D.m_ny b)); [|tauto].
      destruct (Z_le_gt_dec n (Bernstein3D.m_nz b)); [|tauto].
      pose proof (b3d_index_in_range b l m n Hwf) as H.
      unfold Bernstein3D.npars in Hsize. lia.
    + intros H. now rewrite b3d_index_out_of_range.
  - intros Hwf Hsize. split.
    + intros E.
      destruct (Z_le_gt_dec l (Bernstein3DSym.m_n s)); [|tauto].
      destruct (Z_le_gt_dec m (Bernstein3DSym.m_n s)); [|tauto].
      destruct (Z_le_gt_dec n (Bernstein3DSym.m_n s)); [|tauto].
      pose proof (sym_index_in_range s l m n Hwf) as H.
      unfold Bernstein3DSym.npars in Hsize. lia.
    + intros H. now rewrite sym_index_out_of_range.
  - intros Hwf Hsize. split.
    + intros E.
      destruct (Z_le_gt_dec l (Bernstein3DMix.m_n x)); [|tauto].
      destruct (Z_le_gt_dec m (Bernstein3DMix.m_n x)); [|tauto].
      destruct (Z_le_gt_dec n (Bernstein3DMix.m_nz x)); [|tauto].
      pose proof (mix_index_in_range x l m n Hwf) as H.
      unfold Bernstein3DMix.npars in Hsize. lia.
    + intros H. now rewrite mix_index_out_of_range.
Qed.

Lemma X_index_sentinel_iff_out_of_range_witness :
  (Bernstein3D.index Examples.cube111 1 2 0 = 4294967295 <->
   1 > 1 \/ 2 > 1 \/ 0 > 1) /\
  (Bernstein3DSym.index Examples.sym2 1 2 0 = 4294967295 <->
   1 > 2 \/ 2 > 2 \/ 0 > 2) /\
  (Bernstein3DMix.index Examples.mix11 1 2 0 = 4294967295 <->
   1 > 1 \/ 2 > 1 \/ 0 > 1).
Proof.
  assert (P1 : 0 <= 1) by lia. assert (P2 : 0 <= 2) by lia.
  assert (P0 : 0 <= 0) by lia.
  destruct (X_index_sentinel_iff_out_of_range Examples.cube111 Examples.sym2
              Examples.mix11 1 2 0 P1 P2 P0) as (H1 & H2 & H3).
  repeat apply conj.
  - apply (H1 cube111_wf). vm_compute; discriminate.
  - apply (H1 cube111_wf). vm_compute; discriminate.
  - apply (H2 sym2_wf). vm_compute; discriminate.
  - apply (H2 sym2_wf). vm_compute; discriminate.
  - apply (H3 mix11_wf). vm_compute; discriminate.
  - apply (H3 mix11_wf). vm_compute; discriminate.
Defined.

(** ** Bernstein3DSym: the packed index is the combinatorial number of the
    sorted triple *)

Lemma tri_double (m : Z) : 2 * Packing.tri m = m * (m + 1).
Proof.
  unfold Packing.tri.
  destruct (Z.Even_or_Odd m) as [[q Hq]|[q Hq]]; subst m.
  - replace (2 * q * (2 * q + 1)) with (q * (2 * q + 1) * 2) by ring.
    rewrite Z.div_mul by discriminate. ring.
  - replace ((2 * q + 1) * (2 * q + 1 + 1)) with ((2 * q + 1) * (q + 1) * 2)
      by ring.
    rewrite Z.div_mul by discriminate. ring.
Qed.

Lemma tri_succ (m : Z) : Packing.tri (m + 1) = Packing.tri m + m + 1.
Proof.
  pose proof (tri_double m). pose proof (tri_double (m + 1)). lia.
Qed.

Lemma tetra_six (l : Z) :
  0 <= l -> 6 * Packing.tetra l = l * (l + 1) * (l + 2).
Proof.
  intros Hl. unfold Packing.tetra.
  assert (H : exists q, l * (l + 1) * (l + 2) = q * 6).
  { revert l Hl. apply natlike_ind.
    - exists 0. reflexivity.
    - intros l Hl [q Hq]. exists (q + Packing.tri (l + 1)).
      pose proof (tri_double (l + 1)) as Ht.
      replace (Z.succ l) with (l + 1) by lia.
      replace ((l + 1) * (l + 1 + 1) * (l + 1 + 2))
        with (l * (l + 1) * (l + 2) + 3 * ((l + 1) * (l + 1 + 1))) by ring.
      rewrite Hq, <- Ht. ring. }
  destruct H as [q Hq]. rewrite Hq, Z.div_mul by discriminate. ring.
Qed.

Lemma tetra_succ (l : Z) :
  0 <= l -> Packing.tetra (l + 1) = Packing.tetra l + Packing.tri (l + 1).
Proof.
  intros Hl.
  pose proof (tetra_six l Hl) as H1.
  pose proof (tetra_six (l + 1)) as H2.
  pose proof (tri_double (l + 1)) as H3.
  assert (E : (l + 1) * (l + 1 + 1) * (l + 1 + 2) =
              l * (l + 1) * (l + 2) + 3 * ((l + 1) * (l + 1 + 1))) by ring.
  lia.
Qed.

Lemma tri_nonneg (m : Z) : 0 <= m -> 0 <= Packing.tri m.
Proof.
  intros H. unfold Packing.tri. apply Z.div_pos; [|lia].
  apply Z.mul_nonneg_nonneg; lia.
Qed.

Lemma tri_mono (a b : Z) : 0 <= a <= b -> Packing.tri a <= Packing.tri b.
Proof.
  intros H. unfold Packing.tri. apply Z.div_le_mono; [lia|].
  apply Z.mul_le_mono_nonneg; lia.
Qed.

Lemma tetra_nonneg (l : Z) : 0 <= l -> 0 <= Packing.tetra l.
Proof.
  intros H. unfold Packing.tetra. apply Z.div_pos; [|lia].
  repeat apply Z.mul_nonneg_nonneg; lia.
Qed.

Lemma tetra_mono (a b : Z) : 0 <= a <= b -> Packing.tetra a <= Packing.tetra b.
Proof.
  intros H. unfold Packing.tetra. apply Z.div_le_mono; [lia|].
  apply Z.mul_le_mono_nonneg;
    first [ lia
          | repeat apply Z.mul_nonneg_nonneg; lia
          | apply Z.mul_le_mono_nonneg; lia ].
Qed.

(** The combinatorial number of a sorted triple determines the triple. *)
Lemma packing_sorted_unique (l m n l' m' n' : Z) :
  0 <= n <= m -> m <= l -> 0 <= n' <= m' -> m' <= l' ->
  Packing.tetra l + Packing.tri m + n =
  Packing.tetra l' + Packing.tri m' + n' ->
  l = l' /\ m = m' /\ n = n'.
Proof.
  intros Hn Hm Hn' Hm' E.
  assert (Hstep : forall a b c a',
             0 <= c <= b -> b <= a -> a < a' ->
             Packing.tetra a + Packing.tri b + c < Packing.tetra a').
  { intros a b c a' Hc Hb Ha.
    pose proof (tetra_mono (a + 1) a') as M1.
    pose proof (tetra_succ a) as S1. pose proof (tri_succ a) as S2.
    pose proof (tri_mono b a) as M2. lia. }
  assert (Hrow : forall b c b', 0 <= c <= b -> b < b' ->
             Packing.tri b + c < Packing.tri b').
  { intros b c b' Hc Hb.
    pose proof (tri_mono (b + 1) b') as M1. pose proof (tri_succ b) as S1.
    lia. }
  assert (l = l').
  { destruct (Z.lt_trichotomy l l') as [H|[H|H]]; [|exact H|].
    - pose proof (Hstep l m n l' Hn Hm H).
      pose proof (tri_nonneg m'). lia.
    - pose proof (Hstep l' m' n' l Hn' Hm' H).
      pose proof (tri_nonneg m). lia. }
  subst l'.
  assert (m = m').
  { destruct (Z.lt_trichotomy m m') as [H|[H|H]]; [|exact H|].
    - pose proof (Hrow m n m' Hn H). lia.
    - pose proof (Hrow m' n' m Hn' H). lia. }
  subst m'. repeat split; lia.
Qed.

(** Below the overflow threshold the slot formula is exact. *)
Lemma sym_slot_exact (s : Bernstein3DSym.t) (l m n : Z) :
  Bernstein3DSym.m_n s <= 1624 ->
  0 <= n -> n <= m -> m <= l -> l <= Bernstein3DSym.m_n s ->
  Bernstein3DSym.slot s l m n = Packing.tetra l + Packing.tri m + n.
Proof.
  intros HN H0 H1 H2 H3.
  unfold Bernstein3DSym.slot.
  destruct (Z.gtb_spec l (Bernstein3DSym.m_n s)); [lia|].
  assert (Hl : 0 <= l <= 1624) by lia.
  assert (Hll : 0 <= l * (l + 1) <= 1624 * 1625).
  { split; [apply Z.mul_nonneg_nonneg; lia|].
    apply Z.mul_le_mono_nonneg; lia. }
  assert (Hlll : 0 <= l * (l + 1) * (l + 2) <= 1624 * 1625 * 1626).
  { split; [apply Z.mul_nonneg_nonneg; lia|].
    apply Z.mul_le_mono_nonneg; lia. }
  assert (Hmm : 0 <= m * (m + 1) <= l * (l + 1)).
  { split; [apply Z.mul_nonneg_nonneg; lia|].
    apply Z.mul_le_mono_nonneg; lia. }
  unfold UInt.mul, UInt.add, UInt.div.
  rewrite (uint_wrap_small (1 * l)) by (unfold UInt.modulus; lia).
  rewrite (uint_wrap_small (1 * m)) by (unfold UInt.modulus; lia).
  rewrite !Z.mul_1_l.
  rewrite (uint_wrap_small (l * (l + 1))) by (unfold UInt.modulus; lia).
  rewrite (uint_wrap_small (m * (m + 1))) by (unfold UInt.modulus; lia).
  rewrite (uint_wrap_small (l * (l + 1) * (l + 2)))
    by (unfold UInt.modulus; lia).
  fold (Packing.tetra l). fold (Packing.tri m).
  pose proof (tetra_six l (proj1 Hl)) as T6.
  pose proof (tri_double m) as T2.
  pose proof (tetra_nonneg l (proj1 Hl)). pose proof (tri_nonneg m).
  rewrite (uint_wrap_small (Packing.tetra l + Packing.tri m))
    by (unfold UInt.modulus; lia).
  apply uint_wrap_small. unfold UInt.modulus. lia.
Qed.

Ltac perm3 :=
  solve [ apply Permutation_refl
        | apply perm_swap
        | apply perm_skip; apply perm_swap
        | eapply perm_trans; [apply perm_swap | apply perm_skip; apply perm_swap]
        | eapply perm_trans; [apply perm_skip; apply perm_swap | apply perm_swap]
        | eapply perm_trans;
          [apply perm_swap
          | eapply perm_trans;
            [apply perm_skip; apply perm_swap | apply perm_swap]] ].

(** [index] evaluates the slot formula on the triple sorted in descending
    order. *)
Lemma sym_index_sorted_form (s : Bernstein3DSym.t) (l m n : Z) :
  exists a b c,
    Permutation [l; m; n] [a; b; c] /\ c <= b /\ b <= a /\
    Bernstein3DSym.index s l m n = Bernstein3DSym.slot s a b c.
Proof.
  pose proof (sym_index_fuel4 s l m n) as Hfuel. simpl in Hfuel.
  revert Hfuel.
  split_order; intros Hfuel; try lia; injection Hfuel as Hslot;
    match type of Hslot with
    | Bernstein3DSym.slot _ ?a ?b ?c = _ => exists a, b, c
    end;
    (split; [perm3 | split; [lia | split; [lia | now symmetry]]]).
Qed.

Lemma sym_index_of_sorted (s : Bernstein3DSym.t) (l m n : Z) :
  n <= m -> m <= l ->
  Bernstein3DSym.index s l m n = Bernstein3DSym.slot s l m n.
Proof.
  intros H1 H2. rewrite sym_index_unfold.
  destruct (Z.gtb_spec m l); [lia|].
  destruct (Z.gtb_spec n m); [lia|]. reflexivity.
Qed.

Lemma perm3_bounds (lo hi l m n a b c : Z) :
  Permutation [l; m; n] [a; b; c] ->
  lo <= l <= hi -> lo <= m <= hi -> lo <= n <= hi ->
  lo <= a <= hi /\ lo <= b <= hi /\ lo <= c <= hi.
Proof.
  intros P Hl Hm Hn.
  assert (H : forall v, In v [a; b; c] -> lo <= v <= hi).
  { intros v Hv. apply (Permutation_in v (Permutation_sym P)) in Hv.
    simpl in Hv. destruct Hv as [<-|[<-|[<-|[]]]]; assumption. }
  repeat split; apply H; simpl; tauto.
Qed.

(** [index] does not depend on the order of the triple. *)
Lemma sym_index_permutation (s : Bernstein3DSym.t) (xs ys : list Z) :
  Permutation xs ys ->
  match xs with
  | [a; b; c] => Bernstein3DSym.index s a b c
  | _ => 0
  end =
  match ys with
  | [a; b; c] => Bernstein3DSym.index s a b c
  | _ => 0
  end.
Proof.
  induction 1 as [|x xs ys P _|x y xs|xs ys zs _ IH1 _ IH2].
  - reflexivity.
  - pose proof (Permutation_length P) as Hlen.
    destruct xs as [|b [|c [|d xs]]]; destruct ys as [|b' [|c' [|d' ys]]];
      try discriminate; try reflexivity.
    destruct (Permutation_length_2_inv P) as [E|E]; injection E as -> ->.
    + reflexivity.
    + apply sym_index_swap23.
  - destruct xs as [|c [|d xs]]; try reflexivity.
    apply sym_index_swap12.
  - congruence.
Qed.

(** X6: for every Bernstein3DSym of degree at most 1624 and all in-range
    triples, two triples are stored in the same slot exactly when one is a
    permutation of the other: symmetric triples share a coefficient and no
    others do. *)
Theorem X_sym_same_slot_iff_permutation
  (s : Bernstein3DSym.t) (l m n l' m' n' : Z) :
  Bernstein3DSym.m_n s <= 1624 ->
  0 <= l <= Bernstein3DSym.m_n s -> 0 <= m <= Bernstein3DSym.m_n s ->
  0 <= n <= Bernstein3DSym.m_n s ->
  0 <= l' <= Bernstein3DSym.m_n s -> 0 <= m' <= Bernstein3DSym.m_n s ->
  0 <= n' <= Bernstein3DSym.m_n s ->
  (Bernstein3DSym.index s l m n = Bernstein3DSym.index s l' m' n' <->
   Permutation [l; m; n] [l'; m'; n']).
Proof.
  intros HN Hl Hm Hn Hl' Hm' Hn'. split.
  - intros E.
    destruct (sym_index_sorted_form s l m n)
      as (a & b & c & P & Hcb & Hba & Ei).
    destruct (sym_index_sorted_form s l' m' n')
      as (a' & b' & c' & P' & Hcb' & Hba' & Ei').
    destruct (perm3_bounds 0 (Bernstein3DSym.m_n s) _ _ _ _ _ _ P Hl Hm Hn)
      as (Ha & Hb & Hc).
    destruct (perm3_bounds 0 (Bernstein3DSym.m_n s) _ _ _ _ _ _ P' Hl' Hm' Hn')
      as (Ha' & Hb' & Hc').
    rewrite Ei, Ei' in E.
    rewrite (sym_slot_exact s a b c), (sym_slot_exact s a' b' c') in E
      by lia.
    apply packing_sorted_unique in E; try lia.
    destruct E as (-> & -> & ->).
    apply (perm_trans P). now apply Permutation_sym.
  - intros P. apply (sym_index_permutation s _ _ P).
Qed.

Lemma X_sym_same_slot_iff_permutation_witness :
  Bernstein3DSym.index Examples.sym2 2 0 1 =
  Bernstein3DSym.index Examples.sym2 1 2 0 <->
  Permutation [2; 0; 1] [1; 2; 0].
Proof.
  apply (X_sym_same_slot_iff_permutation Examples.sym2 2 0 1 1 2 0);
    simpl; lia.
Defined.

(** Every natural number is the combinatorial number of a sorted triple. *)
Lemma packing_decode (k : Z) :
  0 <= k ->
  exists l m n,
    0 <= n /\ n <= m /\ m <= l /\
    Packing.tetra l + Packing.tri m + n = k.
Proof.
  revert k. apply natlike_ind.
  - exists 0, 0, 0. repeat split; first [lia | reflexivity].
  - intros k Hk (l & m & n & H0 & H1 & H2 & E).
    destruct (Z_lt_le_dec n m) as [Hnm|Hnm].
    + exists l, m, (n + 1). repeat split; lia.
    + destruct (Z_lt_le_dec m l) as [Hml|Hml].
      * exists l, (m + 1), 0. pose proof (tri_succ m).
        repeat split; lia.
      * exists (l + 1), 0, 0.
        assert (Hl : 0 <= l) by lia.
        pose proof (tetra_succ l Hl). pose proof (tri_succ l).
        assert (m = l) by lia. assert (n = l) by lia. subst m n.
        change (Packing.tri 0) with 0.
        repeat split; lia.
Qed.

(** X7: for every well-formed Bernstein3DSym of degree at most 1624, every
    flat index below [npars ()] is the index of an in-range triple
    [l >= m >= n]: the storage has no unused slot. *)
Theorem X_sym_index_surjective (s : Bernstein3DSym.t) (k : Z) :
  Bernstein3DSym.wf s -> Bernstein3DSym.m_n s <= 1624 ->
  0 <= k < Bernstein3DSym.npars s ->
  exists l m n,
    0 <= n /\ n <= m /\ m <= l /\ l <= Bernstein3DSym.m_n s /\
    Bernstein3DSym.index s l m n = k.
Proof.
  intros (HN & Hsize & _) Hsmall Hk.
  unfold UInt.is_ushort, Bernstein3DSym.npars in *.
  set (N := Bernstein3DSym.m_n s) in *.
  assert (Hcount : Vec.size (Bernstein3DSym.m_pars s) = Packing.tetra (N + 1)).
  { rewrite Hsize. unfold Packing.tetra. f_equal. ring. }
  destruct (packing_decode k) as (l & m & n & H0 & H1 & H2 & E); [lia|].
  assert (Hl : l <= N).
  { destruct (Z_le_gt_dec l N) as [H|H]; [exact H|].
    pose proof (tetra_mono (N + 1) l). pose proof (tri_nonneg m). lia. }
  exists l, m, n. repeat split; try lia.
  rewrite sym_index_of_sorted, sym_slot_exact; lia.
Qed.

Lemma X_sym_index_surjective_witness :
  exists l m n,
    0 <= n /\ n <= m /\ m <= l /\ l <= 2 /\
    Bernstein3DSym.index Examples.sym2 l m n = 7.
Proof.
  apply (X_sym_index_surjective Examples.sym2 7 sym2_wf);
    [ simpl; lia | vm_compute; split; [discriminate | reflexivity] ].
Defined.

(** X8: in every Bernstein3DSym of degree 1625 or more the product
    l(l+1)(l+2) wraps at l = 1625, and the in-range triples (1625,0,0) and
    (157,98,32), which are not permutations of each other, share slot
    662242. *)
Theorem X_sym_index_aliases_from_1625 (s : Bernstein3DSym.t) :
  1625 <= Bernstein3DSym.m_n s ->
  Bernstein3DSym.index s 1625 0 0 = 662242 /\
  Bernstein3DSym.index s 157 98 32 = 662242 /\
  Bernstein3DSym.par3 s 1625 0 0 = Bernstein3DSym.par3 s 157 98 32.
Proof.
  intros HN.
  assert (E1 : Bernstein3DSym.index s 1625 0 0 = 662242).
  { rewrite sym_index_of_sorted by lia. unfold Bernstein3DSym.slot.
    destruct (Z.gtb_spec 1625 (Bernstein3DSym.m_n s)); [lia | reflexivity]. }
  assert (E2 : Bernstein3DSym.index s 157 98 32 = 662242).
  { rewrite sym_index_of_sorted by lia. unfold Bernstein3DSym.slot.
    destruct (Z.gtb_spec 157 (Bernstein3DSym.m_n s)); [lia | reflexivity]. }
  repeat split; trivial.
  unfold Bernstein3DSym.par3. now rewrite E1, E2.
Qed.

Lemma X_sym_index_aliases_from_1625_witness :
  Bernstein3DSym.index (Bernstein3DSym.mk 1625 [] 0 1) 1625 0 0 = 662242 /\
  Bernstein3DSym.index (Bernstein3DSym.mk 1625 [] 0 1) 157 98 32 = 662242.
Proof.
  assert (H : 1625 <= Bernstein3DSym.m_n (Bernstein3DSym.mk 1625 [] 0 1))
    by (simpl; lia).
  pose proof (X_sym_index_aliases_from_1625
                (Bernstein3DSym.mk 1625 [] 0 1) H) as (E1 & E2 & _).
  split; [exact E1 | exact E2].
Defined.

(** ** Bernstein3DMix: the packed index *)

(** X9: for every Bernstein3DMix and every triple, exchanging the first two
    components changes neither the flat index nor the coefficient returned
    by [par ( l , m , n )]. *)
Theorem X_mix_par_swap_invariant (x : Bernstein3DMix.t) (l m n : Z) :
  Bernstein3DMix.index x l m n = Bernstein3DMix.index x m l n /\
  Bernstein3DMix.par3 x l m n = Bernstein3DMix.par3 x m l n.
Proof.
  split; [apply mix_index_swap12|].
  unfold Bernstein3DMix.par3. now rewrite mix_index_swap12.
Qed.

Lemma mix_index_of_sorted (x : Bernstein3DMix.t) (l m n : Z) :
  m <= l -> Bernstein3DMix.index x l m n = Bernstein3DMix.slot x l m n.
Proof.
  intros H. rewrite mix_index_unfold.
  destruct (Z.gtb_spec m l); [lia | reflexivity].
Qed.

(** For an in-range triple with [l >= m] the slot is the packed number of
    the triple, reduced modulo 2^32. *)
Lemma mix_slot_mod (x : Bernstein3DMix.t) (l m n : Z) :
  UInt.is_ushort (Bernstein3DMix.m_n x) ->
  0 <= m -> m <= l -> l <= Bernstein3DMix.m_n x ->
  n <= Bernstein3DMix.m_nz x ->
  Bernstein3DMix.slot x l m n =
  UInt.wrap ((Packing.tri l + m) * (Bernstein3DMix.m_nz x + 1) + n).
Proof.
  intros HN H0 H1 H2 H3. unfold UInt.is_ushort, UInt.ushort_max in HN.
  unfold Bernstein3DMix.slot.
  destruct (Z.gtb_spec l (Bernstein3DMix.m_n x)); [lia|].
  destruct (Z.gtb_spec n (Bernstein3DMix.m_nz x)); [lia|].
  assert (Hl : 0 <= l <= 65535) by lia.
  assert (Hll : 0 <= l * (l + 1) <= 65535 * 65536).
  { split; [apply Z.mul_nonneg_nonneg; lia|].
    apply Z.mul_le_mono_nonneg; lia. }
  unfold UInt.mul, UInt.add, UInt.div.
  rewrite (uint_wrap_small (1 * l)) by (unfold UInt.modulus; lia).
  rewrite Z.mul_1_l.
  rewrite (uint_wrap_small (l * (l + 1))) by (unfold UInt.modulus; lia).
  fold (Packing.tri l).
  pose proof (tri_double l) as T2. pose proof (tri_nonneg l (proj1 Hl)).
  rewrite (uint_wrap_small (Packing.tri l + m))
    by (unfold UInt.modulus; lia).
  apply uint_wrap_add_l.
Qed.

Lemma packing_row_unique (l m l' m' : Z) :
  0 <= m <= l -> 0 <= m' <= l' ->
  Packing.tri l + m = Packing.tri l' + m' -> l = l' /\ m = m'.
Proof.
  intros Hm Hm' E.
  assert (Hrow : forall b c b', 0 <= c <= b -> b < b' ->
             Packing.tri b + c < Packing.tri b').
  { intros b c b' Hc Hb.
    pose proof (tri_mono (b + 1) b') as M1. pose proof (tri_succ b) as S1.
    lia. }
  assert (l = l').
  { destruct (Z.lt_trichotomy l l') as [H|[H|H]]; [|exact H|].
    - pose proof (Hrow l m l' Hm H). lia.
    - pose proof (Hrow l' m' l Hm' H). lia. }
  subst. lia.
Qed.

Lemma packing_row_decode (q : Z) :
  0 <= q -> exists l m, 0 <= m /\ m <= l /\ Packing.tri l + m = q.
Proof.
  revert q. apply natlike_ind.
  - exists 0, 0. repeat split; first [lia | reflexivity].
  - intros q Hq (l & m & H0 & H1 & E).
    destruct (Z_lt_le_dec m l) as [Hml|Hml].
    + exists l, (m + 1). repeat split; lia.
    + exists (l + 1), 0. pose proof (tri_succ l).
      assert (m = l) by lia. subst m. repeat split; lia.
Qed.

Lemma mix_count (x : Bernstein3DMix.t) :
  Bernstein3DMix.wf x ->
  Bernstein3DMix.npars x =
  Packing.tri (Bernstein3DMix.m_n x + 1) * (Bernstein3DMix.m_nz x + 1).
Proof.
  intros (_ & _ & Hsize & _). unfold Bernstein3DMix.npars.
  rewrite Hsize. unfold Packing.tri. do 2 f_equal. ring.
Qed.

(** The packed number of an in-range triple is below the number of slots,
    and every number below it is the packed number of an in-range triple. *)
Lemma mix_packed_bound (x : Bernstein3DMix.t) (l m n : Z) :
  Bernstein3DMix.wf x ->
  0 <= m -> m <= l -> l <= Bernstein3DMix.m_n x ->
  0 <= n <= Bernstein3DMix.m_nz x ->
  0 <= (Packing.tri l + m) * (Bernstein3DMix.m_nz x + 1) + n
    < Bernstein3DMix.npars x.
Proof.
  intros Hwf H0 H1 H2 H3. rewrite (mix_count x Hwf).
  destruct Hwf as (HN & HNz & _).
  unfold UInt.is_ushort in *.
  set (N := Bernstein3DMix.m_n x) in *. set (Nz := Bernstein3DMix.m_nz x) in *.
  assert (Hl : 0 <= l) by lia.
  pose proof (tri_nonneg l Hl) as T0.
  pose proof (tri_succ l) as T1. pose proof (tri_mono (l + 1) (N + 1)) as T2.
  assert (Hq : 0 <= Packing.tri l + m /\
               Packing.tri l + m + 1 <= Packing.tri (N + 1)) by lia.
  set (q := Packing.tri l + m) in *. set (T := Packing.tri (N + 1)) in *.
  assert (0 <= q * (Nz + 1)) by (apply Z.mul_nonneg_nonneg; lia).
  assert ((q + 1) * (Nz + 1) <= T * (Nz + 1))
    by (apply Z.mul_le_mono_nonneg_r; lia).
  lia.
Qed.

Lemma mix_decode (x : Bernstein3DMix.t) (k : Z) :
  Bernstein3DMix.wf x -> 0 <= k < Bernstein3DMix.npars x ->
  exists l m n,
    0 <= m /\ m <= l /\ l <= Bernstein3DMix.m_n x /\
    0 <= n <= Bernstein3DMix.m_nz x /\
    (Packing.tri l + m) * (Bernstein3DMix.m_nz x + 1) + n = k.
Proof.
  intros Hwf Hk. rewrite (mix_count x Hwf) in Hk.
  destruct Hwf as (HN & HNz & _).
  unfold UInt.is_ushort in *.
  set (N := Bernstein3DMix.m_n x) in *. set (Nz := Bernstein3DMix.m_nz x) in *.
  pose proof (Z.mod_pos_bound k (Nz + 1)) as Hn.
  pose proof (Z.div_mod k (Nz + 1)) as Dk.
  assert (Hq : 0 <= k / (Nz + 1)) by (apply Z.div_pos; lia).
  assert (Hq' : k / (Nz + 1) < Packing.tri (N + 1)).
  { apply Z.div_lt_upper_bound; [lia|]. rewrite Z.mul_comm. lia. }
  destruct (packing_row_decode (k / (Nz + 1)) Hq) as (l & m & H0 & H1 & E).
  assert (Hl : l <= N).
  { destruct (Z_le_gt_dec l N) as [H|H]; [exact H|].
    pose proof (tri_mono (N + 1) l). lia. }
  exists l, m, (k mod (Nz + 1)).
  assert (Ek : (Packing.tri l + m) * (Nz + 1) + k mod (Nz + 1) = k).
  { rewrite E, Z.mul_comm. symmetry. apply Dk. lia. }
  repeat split; lia.
Qed.

(** X10: for every well-formed Bernstein3DMix with at most 2^32 coefficients
    and all in-range triples, two triples are stored in the same slot
    exactly when their third components agree and their first two
    components agree up to exchange. *)
Theorem X_mix_same_slot_iff_swap
  (x : Bernstein3DMix.t) (l m n l' m' n' : Z) :
  Bernstein3DMix.wf x -> Bernstein3DMix.npars x <= 4294967296 ->
  0 <= l <= Bernstein3DMix.m_n x -> 0 <= m <= Bernstein3DMix.m_n x ->
  0 <= n <= Bernstein3DMix.m_nz x ->
  0 <= l' <= Bernstein3DMix.m_n x -> 0 <= m' <= Bernstein3DMix.m_n x ->
  0 <= n' <= Bernstein3DMix.m_nz x ->
  (Bernstein3DMix.index x l m n = Bernstein3DMix.index x l' m' n' <->
   n = n' /\ ((l = l' /\ m = m') \/ (l = m' /\ m = l'))).
Proof.
  intros Hwf Hsmall Hl Hm Hn Hl' Hm' Hn'.
  pose proof Hwf as (HN & HNz & _).
  assert (Hexact : forall a b c,
             0 <= b -> b <= a -> a <= Bernstein3DMix.m_n x ->
             0 <= c <= Bernstein3DMix.m_nz x ->
             Bernstein3DMix.index x a b c =
             (Packing.tri a + b) * (Bernstein3DMix.m_nz x + 1) + c).
  { intros a b c H0 H1 H2 H3.
    rewrite mix_index_of_sorted, mix_slot_mod by (trivial; lia).
    apply uint_wrap_small. unfold UInt.modulus.
    pose proof (mix_packed_bound x a b c Hwf H0 H1 H2 H3). lia. }
  assert (Hinj : forall a b c a' b' c',
             0 <= b -> b <= a -> a <= Bernstein3DMix.m_n x ->
             0 <= c <= Bernstein3DMix.m_nz x ->
             0 <= b' -> b' <= a' -> a' <= Bernstein3DMix.m_n x ->
             0 <= c' <= Bernstein3DMix.m_nz x ->
             Bernstein3DMix.index x a b c = Bernstein3DMix.index x a' b' c' ->
             a = a' /\ b = b' /\ c = c').
  { intros a b c a' b' c' H0 H1 H2 H3 H0' H1' H2' H3' E.
    rewrite (Hexact a b c), (Hexact a' b' c') in E by assumption.
    rewrite (Z.mul_comm (Packing.tri a + b)),
      (Z.mul_comm (Packing.tri a' + b')) in E.
    unfold UInt.is_ushort in HNz.
    apply radix_unique in E; [|lia|lia]. destruct E as [E Ec].
    apply packing_row_unique in E; [|lia|lia]. tauto. }
  split.
  - intros E.
    destruct (Z_le_gt_dec m l) as [Hml|Hml];
      destruct (Z_le_gt_dec m' l') as [Hml'|Hml'].
    + apply Hinj in E; try lia.
    + rewrite (mix_index_swap12 x l' m' n') in E. apply Hinj in E; try lia.
    + rewrite (mix_index_swap12 x l m n) in E. apply Hinj in E; try lia.
    + rewrite (mix_index_swap12 x l m n), (mix_index_swap12 x l' m' n') in E.
      apply Hinj in E; try lia.
  - intros (-> & [(-> & ->)|(-> & ->)]); [reflexivity|].
    apply mix_index_swap12.
Qed.

Lemma X_mix_same_slot_iff_swap_witness :
  Bernstein3DMix.index Examples.mix11 0 1 1 =
  Bernstein3DMix.index Examples.mix11 1 0 1 <->
  1 = 1 /\ ((0 = 1 /\ 1 = 0) \/ (0 = 0 /\ 1 = 1)).
Proof.
  apply (X_mix_same_slot_iff_swap Examples.mix11 0 1 1 1 0 1 mix11_wf);
    first [ vm_compute; discriminate | simpl; lia ].
Defined.

(** X11: for every well-formed Bernstein3DMix with at most 2^32 coefficients,
    every flat index below [npars ()] is the index of an in-range triple
    with [l >= m]. *)
Theorem X_mix_index_surjective (x : Bernstein3DMix.t) (k : Z) :
  Bernstein3DMix.wf x -> Bernstein3DMix.npars x <= 4294967296 ->
  0 <= k < Bernstein3DMix.npars x ->
  exists l m n,
    0 <= m /\ m <= l /\ l <= Bernstein3DMix.m_n x /\
    0 <= n <= Bernstein3DMix.m_nz x /\
    Bernstein3DMix.index x l m n = k.
Proof.
  intros Hwf Hsmall Hk.
  destruct (mix_decode x k Hwf Hk) as (l & m & n & H0 & H1 & H2 & H3 & E).
  exists l, m, n. repeat split; try lia.
  pose proof Hwf as (HN & _).
  rewrite mix_index_of_sorted, mix_slot_mod by (trivial; lia).
  rewrite E. apply uint_wrap_small. unfold UInt.modulus. lia.
Qed.

Lemma X_mix_index_surjective_witness :
  exists l m n,
    0 <= m /\ m <= l /\ l <= 1 /\ 0 <= n <= 1 /\
    Bernstein3DMix.index Examples.mix11 l m n = 4.
Proof.
  apply (X_mix_index_surjective Examples.mix11 4 mix11_wf);
    [ vm_compute; discriminate | vm_compute; split; [discriminate | reflexivity] ].
Defined.

(** X12: a well-formed Bernstein3DMix with more than 2^32 coefficients has an
    in-range triple with [l >= m], other than (0,0,0), that shares the slot
    of (0,0,0). *)
Theorem X_mix_index_aliases_when_oversized (x : Bernstein3DMix.t) :
  Bernstein3DMix.wf x -> 4294967296 < Bernstein3DMix.npars x ->
  exists l m n,
    0 <= m /\ m <= l /\ l <= Bernstein3DMix.m_n x /\
    0 <= n <= Bernstein3DMix.m_nz x /\
    (l, m, n) <> (0, 0, 0) /\
    Bernstein3DMix.index x l m n = Bernstein3DMix.index x 0 0 0 /\
    Bernstein3DMix.par3 x l m n = Bernstein3DMix.par3 x 0 0 0.
Proof.
  intros Hwf Hbig.
  destruct (mix_decode x 4294967296 Hwf) as (l & m & n & H0 & H1 & H2 & H3 & E);
    [lia|].
  pose proof Hwf as (HN & HNz & _).
  assert (Hidx : Bernstein3DMix.index x l m n = Bernstein3DMix.index x 0 0 0).
  { unfold UInt.is_ushort in *.
    rewrite !mix_index_of_sorted, !mix_slot_mod by (trivial; lia).
    rewrite E. reflexivity. }
  exists l, m, n.
  split; [exact H0 | split; [exact H1 | split; [exact H2 | split; [exact H3|]]]].
  split; [| split; [exact Hidx |]].
  - intros H. injection H as -> -> ->. discriminate.
  - unfold Bernstein3DMix.par3. now rewrite Hidx.
Qed.

Lemma mix_make_wf (N Nz : Z) (xmin xmax zmin zmax : R) :
  UInt.is_ushort N -> UInt.is_ushort Nz ->
  (xmin < xmax)%R -> (zmin < zmax)%R ->
  Bernstein3DMix.wf (Bernstein3DMix.make N Nz xmin xmax zmin zmax).
Proof.
  intros HN HNz Hx Hz. unfold Bernstein3DMix.wf, Bernstein3DMix.make.
  cbn [Bernstein3DMix.m_n Bernstein3DMix.m_nz Bernstein3DMix.m_pars
       Bernstein3DMix.m_xmin Bernstein3DMix.m_xmax Bernstein3DMix.m_zmin
       Bernstein3DMix.m_zmax].
  rewrite vec_size_repeat.
  - tauto.
  - unfold UInt.is_ushort in *. apply Z.mul_nonneg_nonneg; [|lia].
    apply Z.div_pos; [|lia]. apply Z.mul_nonneg_nonneg; lia.
Qed.

Lemma mix_make_npars (N Nz : Z) (xmin xmax zmin zmax : R) :
  UInt.is_ushort N -> UInt.is_ushort Nz ->
  Bernstein3DMix.npars (Bernstein3DMix.make N Nz xmin xmax zmin zmax) =
  (N + 1) * (N + 2) / 2 * (Nz + 1).
Proof.
  intros HN HNz. unfold Bernstein3DMix.npars, Bernstein3DMix.make.
  cbn [Bernstein3DMix.m_pars].
  apply vec_size_repeat.
  unfold UInt.is_ushort in *. apply Z.mul_nonneg_nonneg; [|lia].
  apply Z.div_pos; [|lia]. apply Z.mul_nonneg_nonneg; lia.
Qed.

Lemma X_mix_index_aliases_when_oversized_witness :
  exists l m n,
    0 <= m /\ m <= l /\
    l <= Bernstein3DMix.m_n (Bernstein3DMix.make 65535 1 0 1 0 1) /\
    0 <= n <= Bernstein3DMix.m_nz (Bernstein3DMix.make 65535 1 0 1 0 1) /\
    (l, m, n) <> (0, 0, 0) /\
    Bernstein3DMix.index (Bernstein3DMix.make 65535 1 0 1 0 1) l m n =
    Bernstein3DMix.index (Bernstein3DMix.make 65535 1 0 1 0 1) 0 0 0 /\
    Bernstein3DMix.par3 (Bernstein3DMix.make 65535 1 0 1 0 1) l m n =
    Bernstein3DMix.par3 (Bernstein3DMix.make 65535 1 0 1 0 1) 0 0 0.
Proof.
  assert (U1 : UInt.is_ushort 65535)
    by (unfold UInt.is_ushort, UInt.ushort_max; lia).
  assert (U2 : UInt.is_ushort 1)
    by (unfold UInt.is_ushort, UInt.ushort_max; lia).
  assert (B1 : (0 < 1)%R) by lra.
  assert (Hbig : 4294967296 <
                 Bernstein3DMix.npars (Bernstein3DMix.make 65535 1 0 1 0 1)).
  { rewrite (mix_make_npars 65535 1 0 1 0 1 U1 U2). reflexivity. }
  exact (X_mix_index_aliases_when_oversized
           (Bernstein3DMix.make 65535 1 0 1 0 1)
           (mix_make_wf 65535 1 0 1 0 1 U1 U2 B1 B1) Hbig).
Defined.

(** ** The symmetric setter *)

(** X13: for every Bernstein3DSym and every value, [setPar ( l , m , n ,
    value )] called on a permutation of the triple passes the same flat
    index on, so that it has the same result and leaves the same object;
    the getter reads the same coefficient. *)
Theorem X_sym_setPar_permutation_invariant
  (s : Bernstein3DSym.t) (l m n l' m' n' : Z) (value : R) :
  Permutation [l; m; n] [l'; m'; n'] ->
  Bernstein3DSym.index s l m n = Bernstein3DSym.index s l' m' n' /\
  Bernstein3DSym.setPar3 s l m n value =
  Bernstein3DSym.setPar3 s l' m' n' value /\
  Bernstein3DSym.par3 s l m n = Bernstein3DSym.par3 s l' m' n'.
Proof.
  intros P. pose proof (sym_index_permutation s _ _ P) as E.
  cbv beta iota in E.
  unfold Bernstein3DSym.setPar3, Bernstein3DSym.par3. rewrite E.
  repeat split.
Qed.

Lemma X_sym_setPar_permutation_invariant_witness :
  Bernstein3DSym.setPar3 Examples.sym2 2 0 0 5%R =
  Bernstein3DSym.setPar3 Examples.sym2 0 0 2 5%R.
Proof.
  assert (P : Permutation [2; 0; 0] [0; 0; 2]) by perm3.
  apply (X_sym_setPar_permutation_invariant Examples.sym2 2 0 0 0 0 2 5%R P).
Defined.

(** ** The order of the coefficients in the storage *)

(** X15: in a well-formed Bernstein3D with at most 2^32 coefficients the
    storage is row-major with the third index running fastest: (0,0,0) is
    slot 0, (nX,nY,nZ) is the last slot, and stepping to the next triple
    (n+1, or m+1 with n reset, or l+1 with m and n reset) steps to the next
    slot. *)
Theorem X_b3d_storage_is_row_major (b : Bernstein3D.t) (l m n : Z) :
  Bernstein3D.wf b -> Bernstein3D.npars b <= 4294967296 ->
  0 <= l <= Bernstein3D.m_nx b -> 0 <= m <= Bernstein3D.m_ny b ->
  0 <= n <= Bernstein3D.m_nz b ->
  Bernstein3D.index b 0 0 0 = 0 /\
  Bernstein3D.index b (Bernstein3D.m_nx b) (Bernstein3D.m_ny b)
    (Bernstein3D.m_nz b) = Bernstein3D.npars b - 1 /\
  (n < Bernstein3D.m_nz b ->
   Bernstein3D.index b l m (n + 1) = Bernstein3D.index b l m n + 1) /\
  (m < Bernstein3D.m_ny b ->
   Bernstein3D.index b l (m + 1) 0 =
   Bernstein3D.index b l m (Bernstein3D.m_nz b) + 1) /\
  (l < Bernstein3D.m_nx b ->
   Bernstein3D.index b (l + 1) 0 0 =
   Bernstein3D.index b l (Bernstein3D.m_ny b) (Bernstein3D.m_nz b) + 1).
Proof.
  intros Hwf Hsmall Hl Hm Hn.
  pose proof Hwf as (Hx & Hy & Hz & Hsize & _).
  unfold UInt.is_ushort in *.
  repeat apply conj.
  - rewrite b3d_index_exact by (trivial; lia). ring.
  - rewrite b3d_index_exact by (trivial; lia).
    unfold Bernstein3D.npars. rewrite Hsize. ring.
  - intros H. rewrite !b3d_index_exact by (trivial; lia). ring.
  - intros H. rewrite !b3d_index_exact by (trivial; lia). ring.
  - intros H. rewrite !b3d_index_exact by (trivial; lia). ring.
Qed.

Lemma X_b3d_storage_is_row_major_witness :
  Bernstein3D.index Examples.cube111 0 0 0 = 0 /\
  Bernstein3D.index Examples.cube111 1 1 1 =
  Bernstein3D.npars Examples.cube111 - 1 /\
  Bernstein3D.index Examples.cube111 0 (0 + 1) 0 =
  Bernstein3D.index Examples.cube111 0 0 1 + 1.
Proof.
  assert (S : Bernstein3D.npars Examples.cube111 <= 4294967296)
    by (vm_compute; discriminate).
  assert (R0 : 0 <= 0 <= Bernstein3D.m_nx Examples.cube111) by (simpl; lia).
  destruct (X_b3d_storage_is_row_major Examples.cube111 0 0 0
              cube111_wf S R0 R0 R0) as (H1 & H2 & _ & H4 & _).
  repeat apply conj; [exact H1 | exact H2 | apply H4; simpl; lia].
Defined.

(** X16: in a well-formed Bernstein3DSym of degree at most 1624 the slots
    enumerate the sorted triples [l >= m >= n] in lexicographic order:
    (0,0,0) is slot 0, (N,N,N) is the last slot, and stepping to the next
    sorted triple steps to the next slot. *)
Theorem X_sym_storage_order (s : Bernstein3DSym.t) (l m n : Z) :
  Bernstein3DSym.wf s -> Bernstein3DSym.m_n s <= 1624 ->
  0 <= n -> n <= m -> m <= l -> l <= Bernstein3DSym.m_n s ->
  Bernstein3DSym.index s 0 0 0 = 0 /\
  Bernstein3DSym.index s (Bernstein3DSym.m_n s) (Bernstein3DSym.m_n s)
    (Bernstein3DSym.m_n s) = Bernstein3DSym.npars s - 1 /\
  (n < m ->
   Bernstein3DSym.index s l m (n + 1) = Bernstein3DSym.index s l m n + 1) /\
  (m < l ->
   Bernstein3DSym.index s l (m + 1) 0 = Bernstein3DSym.index s l m m + 1) /\
  (l < Bernstein3DSym.m_n s ->
   Bernstein3DSym.index s (l + 1) 0 0 = Bernstein3DSym.index s l l l + 1).
Proof.
  intros (HN & Hsize & _) Hsmall H0 H1 H2 H3.
  unfold UInt.is_ushort in HN. set (N := Bernstein3DSym.m_n s) in *.
  assert (Hcount : Bernstein3DSym.npars s = Packing.tetra (N + 1)).
  { unfold Bernstein3DSym.npars. rewrite Hsize. unfold Packing.tetra.
    f_equal. ring. }
  assert (Hexact : forall a b c, 0 <= c -> c <= b -> b <= a -> a <= N ->
             Bernstein3DSym.index s a b c =
             Packing.tetra a + Packing.tri b + c).
  { intros a b c Hc Hb Ha Ha'.
    rewrite sym_index_of_sorted, sym_slot_exact; trivial. }
  repeat apply conj.
  - rewrite Hexact by lia. reflexivity.
  - rewrite Hexact, Hcount by lia.
    pose proof (tetra_succ N). pose proof (tri_succ N). lia.
  - intros H. rewrite !Hexact by lia. ring.
  - intros H. rewrite !Hexact by lia. pose proof (tri_succ m). lia.
  - intros H. rewrite !Hexact by lia.
    pose proof (tetra_succ l). pose proof (tri_succ l).
    change (Packing.tri 0) with 0. lia.
Qed.

Lemma X_sym_storage_order_witness :
  Bernstein3DSym.index Examples.sym2 0 0 0 = 0 /\
  Bernstein3DSym.index Examples.sym2 2 2 2 =
  Bernstein3DSym.npars Examples.sym2 - 1 /\
  Bernstein3DSym.index Examples.sym2 (1 + 1) 0 0 =
  Bernstein3DSym.index Examples.sym2 1 1 1 + 1.
Proof.
  assert (S : Bernstein3DSym.m_n Examples.sym2 <= 1624) by (simpl; lia).
  destruct (X_sym_storage_order Examples.sym2 1 1 1 sym2_wf S)
    as (H1 & H2 & _ & _ & H5); try lia; [simpl; lia|].
  repeat apply conj; [exact H1 | exact H2 | apply H5; simpl; lia].
Defined.

(** X17: in a well-formed Bernstein3DMix with at most 2^32 coefficients the
    slots enumerate the triples with [l >= m] in lexicographic order, the
    third index running fastest. *)
Theorem X_mix_storage_order (x : Bernstein3DMix.t) (l m n : Z) :
  Bernstein3DMix.wf x -> Bernstein3DMix.npars x <= 4294967296 ->
  0 <= m -> m <= l -> l <= Bernstein3DMix.m_n x ->
  0 <= n <= Bernstein3DMix.m_nz x ->
  Bernstein3DMix.index x 0 0 0 = 0 /\
  Bernstein3DMix.index x (Bernstein3DMix.m_n x) (Bernstein3DMix.m_n x)
    (Bernstein3DMix.m_nz x) = Bernstein3DMix.npars x - 1 /\
  (n < Bernstein3DMix.m_nz x ->
   Bernstein3DMix.index x l m (n + 1) = Bernstein3DMix.index x l m n + 1) /\
  (m < l ->
   Bernstein3DMix.index x l (m + 1) 0 =
   Bernstein3DMix.index x l m (Bernstein3DMix.m_nz x) + 1) /\
  (l < Bernstein3DMix.m_n x ->
   Bernstein3DMix.index x (l + 1) 0 0 =
   Bernstein3DMix.index x l l (Bernstein3DMix.m_nz x) + 1).
Proof.
  intros Hwf Hsmall H0 H1 H2 H3.
  pose proof Hwf as (HN & HNz & _).
  assert (Hexact : forall a b c,
             0 <= b -> b <= a -> a <= Bernstein3DMix.m_n x ->
             0 <= c <= Bernstein3DMix.m_nz x ->
             Bernstein3DMix.index x a b c =
             (Packing.tri a + b) * (Bernstein3DMix.m_nz x + 1) + c).
  { intros a b c Hb Ha Ha' Hc.
    rewrite mix_index_of_sorted, mix_slot_mod by (trivial; lia).
    apply uint_wrap_small. unfold UInt.modulus.
    pose proof (mix_packed_bound x a b c Hwf Hb Ha Ha' Hc). lia. }
  unfold UInt.is_ushort in *.
  repeat apply conj.
  - rewrite Hexact by lia. reflexivity.
  - rewrite Hexact, (mix_count x Hwf) by lia.
    rewrite (tri_succ (Bernstein3DMix.m_n x)). ring.
  - intros H. rewrite !Hexact by lia. ring.
  - intros H. rewrite !Hexact by lia. ring.
  - intros H. rewrite !Hexact by lia. rewrite (tri_succ l).
    change (Packing.tri 0) with 0. ring.
Qed.

Lemma X_mix_storage_order_witness :
  Bernstein3DMix.index Examples.mix11 0 0 0 = 0 /\
  Bernstein3DMix.index Examples.mix11 1 1 1 =
  Bernstein3DMix.npars Examples.mix11 - 1 /\
  Bernstein3DMix.index Examples.mix11 1 (0 + 1) 0 =
  Bernstein3DMix.index Examples.mix11 1 0 1 + 1.
Proof.
  assert (S : Bernstein3DMix.npars Examples.mix11 <= 4294967296)
    by (vm_compute; discriminate).
  destruct (X_mix_storage_order Examples.mix11 1 0 0 mix11_wf S)
    as (H1 & H2 & _ & H4 & _); try lia; [simpl; lia | simpl; lia |].
  repeat apply conj; [exact H1 | exact H2 | apply H4; lia].
Defined.

(** ** The integral of a basic polynomial *)

Lemma derivable_pt_lim_eq (f : R -> R) (x l l' : R) :
  derivable_pt_lim f x l -> l = l' -> derivable_pt_lim f x l'.
Proof. intros H E. now subst. Qed.

Lemma derivable_pt_lim_ext (f g : R -> R) (x l : R) :
  (forall y, f y = g y) -> derivable_pt_lim f x l -> derivable_pt_lim g x l.
Proof.
  intros E H eps Heps. destruct (H eps Heps) as [d Hd].
  exists d. intros h Hh Hlt. rewrite <- !E. now apply Hd.
Qed.

Lemma antiderivative_intro (f F : R -> R) (a b : R) :
  (a <= b)%R ->
  (forall x, (a <= x <= b)%R -> derivable_pt_lim F x (f x)) ->
  antiderivative f F a b.
Proof.
  intros Hab H. split; [|exact Hab]. intros x Hx.
  exists (exist _ (f x) (H x Hx)). reflexivity.
Qed.

Lemma has_integral_unique (f : R -> R) (a b v w : R) :
  Calculus.has_integral f a b v -> Calculus.has_integral f a b w -> v = w.
Proof.
  intros (F & HF & <-) (G & HG & <-).
  destruct (antiderivative_Ucte _ _ _ _ _ HF HG) as [c Hc].
  destruct HF as (_ & Hab).
  rewrite (Hc b), (Hc a) by lra. ring.
Qed.

Lemma monomial_primitive_derivative (k : nat) :
  forall (i : nat) (t : R),
    derivable_pt_lim (Calculus.monomial_primitive k i) t
      (t ^ i * (1 - t) ^ k)%R.
Proof.
  induction k as [|k IH]; intros i t.
  - change (Calculus.monomial_primitive 0 i)
      with (mult_real_fct (/ INR (S i)) (fun y => y ^ S i)%R).
    apply (derivable_pt_lim_eq _ _
             (/ INR (S i) * (INR (S i) * t ^ pred (S i)))%R).
    + apply derivable_pt_lim_scal, derivable_pt_lim_pow.
    + simpl pred. simpl pow. field. apply not_0_INR. lia.
  - change (Calculus.monomial_primitive (S k) i)
      with (plus_fct
              (mult_real_fct (/ INR (S i))
                 (mult_fct (fun y => y ^ S i)%R
                    (comp (fun y => y ^ S k)%R (minus_fct (fct_cte 1) id))))
              (mult_real_fct (INR (S k) / INR (S i))
                 (Calculus.monomial_primitive k (S i)))).
    eapply derivable_pt_lim_eq.
    + apply derivable_pt_lim_plus.
      * apply derivable_pt_lim_scal, derivable_pt_lim_mult.
        -- apply derivable_pt_lim_pow.
        -- apply derivable_pt_lim_comp.
           ++ apply derivable_pt_lim_minus;
                [apply derivable_pt_lim_const | apply derivable_pt_lim_id].
           ++ apply derivable_pt_lim_pow.
      * apply derivable_pt_lim_scal, IH.
    + unfold comp, minus_fct, fct_cte, id. simpl pred.
      assert (INR (S i) <> 0)%R by (apply not_0_INR; lia).
      rewrite <- !tech_pow_Rmult. field. assumption.
Qed.

Lemma monomial_primitive_increment (k : nat) :
  forall i : nat,
    (Calculus.monomial_primitive k i 1 - Calculus.monomial_primitive k i 0)%R
    = (INR (fact i) * INR (fact k) / INR (fact (i + k + 1)))%R.
Proof.
  induction k as [|k IH]; intros i.
  - cbn [Calculus.monomial_primitive].
    rewrite pow1, pow_i by lia.
    replace (i + 0 + 1)%nat with (S i) by lia.
    rewrite fact_simpl, mult_INR. simpl (fact 0).
    pose proof (INR_fact_neq_0 i).
    assert (INR (S i) <> 0)%R by (apply not_0_INR; lia).
    simpl (INR 1). field. split; assumption.
  - cbn [Calculus.monomial_primitive].
    replace ((1 - 1) ^ S k)%R with 0%R
      by (rewrite Rminus_diag, pow_i; [reflexivity | lia]).
    rewrite (pow_i (S i)) by lia.
    replace (/ INR (S i) * (1 ^ S i * 0) +
             INR (S k) / INR (S i) * Calculus.monomial_primitive k (S i) 1 -
             (/ INR (S i) * (0 * (1 - 0) ^ S k) +
              INR (S k) / INR (S i) * Calculus.monomial_primitive k (S i) 0))%R
      with (INR (S k) / INR (S i) *
            (Calculus.monomial_primitive k (S i) 1 -
             Calculus.monomial_primitive k (S i) 0))%R
      by (unfold Rdiv; ring).
    rewrite IH.
    replace (S i + k + 1)%nat with (i + S k + 1)%nat by lia.
    rewrite (fact_simpl i), (fact_simpl k), !mult_INR.
    pose proof (INR_fact_neq_0 i). pose proof (INR_fact_neq_0 (i + S k + 1)).
    assert (INR (S i) <> 0)%R by (apply not_0_INR; lia).
    field. split; assumption.
Qed.

Lemma bernstein_basis_increment (n i : nat) :
  (i <= n)%nat ->
  (C n i * (Calculus.monomial_primitive (n - i) i 1 -
            Calculus.monomial_primitive (n - i) i 0))%R
  = (/ INR (S n))%R.
Proof.
  intros Hi. rewrite monomial_primitive_increment.
  replace (i + (n - i) + 1)%nat with (S n) by lia.
  unfold C. rewrite (fact_simpl n), mult_INR.
  pose proof (INR_fact_neq_0 i). pose proof (INR_fact_neq_0 (n - i)).
  pose proof (INR_fact_neq_0 n).
  assert (INR (S n) <> 0)%R by (apply not_0_INR; lia).
  field. repeat split; assumption.
Qed.

(** Inside of its interval a basic polynomial is the derivative of its
    primitive. *)
Lemma basic_primitive_derivative (n i : Z) (lo hi x : R) :
  (lo < hi)%R -> (lo <= x <= hi)%R ->
  derivable_pt_lim (Calculus.basic_primitive n i lo hi) x
    (Bernstein.basic n i lo hi x).
Proof.
  intros H Hx. unfold Calculus.basic_primitive.
  eapply derivable_pt_lim_eq.
  - apply derivable_pt_lim_scal, derivable_pt_lim_scal.
    apply derivable_pt_lim_comp.
    + apply derivable_pt_lim_mult.
      * apply derivable_pt_lim_minus;
          [apply derivable_pt_lim_id | apply derivable_pt_lim_const].
      * apply derivable_pt_lim_const.
    + apply monomial_primitive_derivative.
  - unfold Bernstein.basic.
    rewrite (Rltb_false x lo), (Rltb_false hi x) by lra. cbn [orb].
    unfold Bernstein.basis, mult_fct, minus_fct, fct_cte, id, Rdiv.
    field. lra.
Qed.

(** Over its interval the primitive of a basic polynomial increases by
    the length of the interval over the degree plus one. *)
Lemma basic_primitive_increment (n i : Z) (lo hi : R) :
  0 <= i <= n -> (lo < hi)%R ->
  (Calculus.basic_primitive n i lo hi hi -
   Calculus.basic_primitive n i lo hi lo)%R =
  Bernstein.full_integral n lo hi.
Proof.
  intros Hi H.
  unfold Calculus.basic_primitive, mult_real_fct, comp, mult_fct, minus_fct,
    fct_cte, id.
  replace ((hi - lo) * / (hi - lo))%R with 1%R by (field; lra).
  replace ((lo - lo) * / (hi - lo))%R with 0%R by (field; lra).
  rewrite <- !Rmult_minus_distr_l.
  rewrite bernstein_basis_increment by lia.
  unfold Bernstein.full_integral.
  rewrite S_INR, INR_IZR_INZ, Z2Nat.id, <- plus_IZR by lia.
  reflexivity.
Qed.

(** The modelled full-interval integral of a basic polynomial is its
    integral. *)
Lemma bernstein_basic_integral (n i : Z) (lo hi : R) :
  0 <= i <= n -> (lo < hi)%R ->
  Calculus.has_integral (Bernstein.basic n i lo hi) lo hi
    (Bernstein.full_integral n lo hi).
Proof.
  intros Hi H. exists (Calculus.basic_primitive n i lo hi). split.
  - apply antiderivative_intro; [lra|]. intros x Hx.
    now apply basic_primitive_derivative.
  - now apply basic_primitive_increment.
Qed.

(** ** Bernstein3D: [integral ()] is the integral of [evaluate] *)

Lemma sum_f_R0_derivable (N : nat) (f : nat -> R -> R) (f' : nat -> R)
  (u : R) :
  (forall i, (i <= N)%nat -> derivable_pt_lim (f i) u (f' i)) ->
  derivable_pt_lim (fun y => sum_f_R0 (fun i => f i y) N) u (sum_f_R0 f' N).
Proof.
  induction N as [|N IH]; intros H.
  - simpl. apply (derivable_pt_lim_ext (f 0%nat)); [reflexivity|].
    apply H. lia.
  - change (derivable_pt_lim
              (plus_fct (fun y => sum_f_R0 (fun i => f i y) N) (f (S N)))
              u (sum_f_R0 f' N + f' (S N))%R).
    apply derivable_pt_lim_plus.
    + apply IH. intros i Hi. apply H. lia.
    + apply H. lia.
Qed.

Lemma sum1_derivable (n : Z) (f : Z -> R -> R) (f' : Z -> R) (u : R) :
  0 <= n ->
  (forall i, 0 <= i <= n -> derivable_pt_lim (f i) u (f' i)) ->
  derivable_pt_lim (fun y => sum1 n (fun i => f i y)) u (sum1 n f').
Proof.
  intros Hn H. unfold sum1.
  apply (sum_f_R0_derivable (Z.to_nat n) (fun i => f (Z.of_nat i))
           (fun i => f' (Z.of_nat i))).
  intros i Hi. apply H. lia.
Qed.

Lemma sum3_derivable (nx ny nz : Z) (f : Z -> Z -> Z -> R -> R)
  (f' : Z -> Z -> Z -> R) (u : R) :
  0 <= nx -> 0 <= ny -> 0 <= nz ->
  (forall i j k, 0 <= i <= nx -> 0 <= j <= ny -> 0 <= k <= nz ->
                 derivable_pt_lim (f i j k) u (f' i j k)) ->
  derivable_pt_lim (fun y => sum3 nx ny nz (fun i j k => f i j k y)) u
    (sum3 nx ny nz f').
Proof.
  intros Hx Hy Hz H. unfold sum3.
  apply (sum1_derivable nx
           (fun i y => sum1 ny (fun j => sum1 nz (fun k => f i j k y)))
           (fun i => sum1 ny (fun j => sum1 nz (fun k => f' i j k))));
    [assumption|].
  intros i Hi.
  apply (sum1_derivable ny
           (fun j y => sum1 nz (fun k => f i j k y))
           (fun j => sum1 nz (fun k => f' i j k))); [assumption|].
  intros j Hj.
  apply (sum1_derivable nz (fun k y => f i j k y) (fun k => f' i j k));
    [assumption|].
  intros k Hk. apply (derivable_pt_lim_ext (f i j k)); [reflexivity|].
  now apply H.
Qed.

Lemma sum3_minus (nx ny nz : Z) (f g : Z -> Z -> Z -> R) :
  (sum3 nx ny nz f - sum3 nx ny nz g)%R =
  sum3 nx ny nz (fun i j k => (f i j k - g i j k)%R).
Proof.
  replace (sum3 nx ny nz f - sum3 nx ny nz g)%R
    with (sum3 nx ny nz f + -1 * sum3 nx ny nz g)%R by ring.
  rewrite <- sum3_scal_l, <- sum3_plus.
  unfold sum3. apply sum1_ext_all; intros i. apply sum1_ext_all; intros j.
  apply sum1_ext_all; intros k. ring.
Qed.

(** Term by term integration of a sum over the cube of basis triples. *)
Lemma sum3_has_integral (nx ny nz : Z) (f : R -> R)
  (h H : Z -> Z -> Z -> R -> R) (w : Z -> Z -> Z -> R) (a b : R) :
  (a <= b)%R -> 0 <= nx -> 0 <= ny -> 0 <= nz ->
  (forall u, (a <= u <= b)%R ->
             f u = sum3 nx ny nz (fun i j k => h i j k u)) ->
  (forall i j k u, 0 <= i <= nx -> 0 <= j <= ny -> 0 <= k <= nz ->
                   (a <= u <= b)%R ->
                   derivable_pt_lim (H i j k) u (h i j k u)) ->
  (forall i j k, 0 <= i <= nx -> 0 <= j <= ny -> 0 <= k <= nz ->
                 (H i j k b - H i j k a)%R = w i j k) ->
  Calculus.has_integral f a b (sum3 nx ny nz w).
Proof.
  intros Hab Hx Hy Hz Hf Hd Hw.
  exists (fun u => sum3 nx ny nz (fun i j k => H i j k u)). split.
  - apply antiderivative_intro; [exact Hab|]. intros u Hu.
    rewrite (Hf u Hu).
    apply (sum3_derivable nx ny nz H (fun i j k => h i j k u));
      try assumption.
    intros i j k Hi Hj Hk. now apply Hd.
  - rewrite sum3_minus. apply sum3_ext; assumption.
Qed.

Lemma basic_primitive_scaled_derivative (G : R -> R) (a : R) (n i : Z)
  (lo hi u l : R) :
  (lo < hi)%R -> (lo <= u <= hi)%R ->
  (forall y, G y = (a * Calculus.basic_primitive n i lo hi y)%R) ->
  l = (a * Bernstein.basic n i lo hi u)%R ->
  derivable_pt_lim G u l.
Proof.
  intros H Hu HG ->.
  apply (derivable_pt_lim_ext
           (mult_real_fct a (Calculus.basic_primitive n i lo hi))).
  - intros y. symmetry. apply HG.
  - apply derivable_pt_lim_scal. now apply basic_primitive_derivative.
Qed.

(** [integral ()] is the integral of [evaluate] over the box, taken one
    axis after the other: first over z at fixed (x,y), then over y at
    fixed x, then over x. *)
Lemma b3d_integral_of_evaluate (b : Bernstein3D.t) :
  Bernstein3D.wf b ->
  let wy := Bernstein.full_integral (Bernstein3D.m_ny b)
              (Bernstein3D.m_ymin b) (Bernstein3D.m_ymax b) in
  let wz := Bernstein.full_integral (Bernstein3D.m_nz b)
              (Bernstein3D.m_zmin b) (Bernstein3D.m_zmax b) in
  (forall x y,
      (Bernstein3D.m_xmin b <= x <= Bernstein3D.m_xmax b)%R ->
      (Bernstein3D.m_ymin b <= y <= Bernstein3D.m_ymax b)%R ->
      Calculus.has_integral (fun z => Bernstein3D.evaluate b x y z)
        (Bernstein3D.m_zmin b) (Bernstein3D.m_zmax b)
        (Bernstein3D.calculate b (fun i => Bernstein3D.m_bx b i x)
           (fun j => Bernstein3D.m_by b j y) (fun _ => wz))) /\
  (forall x,
      (Bernstein3D.m_xmin b <= x <= Bernstein3D.m_xmax b)%R ->
      Calculus.has_integral
        (fun y => Bernstein3D.calculate b (fun i => Bernstein3D.m_bx b i x)
                    (fun j => Bernstein3D.m_by b j y) (fun _ => wz))
        (Bernstein3D.m_ymin b) (Bernstein3D.m_ymax b)
        (Bernstein3D.calculate b (fun i => Bernstein3D.m_bx b i x)
           (fun _ => wy) (fun _ => wz))) /\
  Calculus.has_integral
    (fun x => Bernstein3D.calculate b (fun i => Bernstein3D.m_bx b i x)
                (fun _ => wy) (fun _ => wz))
    (Bernstein3D.m_xmin b) (Bernstein3D.m_xmax b)
    (Bernstein3D.integral b).
Proof.
  intros (Hx & Hy & Hz & _ & Hxx & Hyy & Hzz) wy wz.
  unfold UInt.is_ushort in Hx, Hy, Hz.
  repeat apply conj.
  - intros x y Hxd Hyd.
    apply (sum3_has_integral _ _ _ _
             (fun i j k u =>
                (Bernstein3D.par3 b i j k * Bernstein3D.m_bx b i x *
                 Bernstein3D.m_by b j y * Bernstein3D.m_bz b k u)%R)
             (fun i j k u =>
                (Bernstein3D.par3 b i j k * Bernstein3D.m_bx b i x *
                 Bernstein3D.m_by b j y *
                 Calculus.basic_primitive (Bernstein3D.m_nz b) k
                   (Bernstein3D.m_zmin b) (Bernstein3D.m_zmax b) u)%R));
      try lia; try lra.
    + intros u Hu. apply b3d_evaluate_in_domain.
      unfold Bernstein3D.in_domain. lra.
    + intros i j k u Hi Hj Hk Hu.
      apply (basic_primitive_scaled_derivative _
               (Bernstein3D.par3 b i j k * Bernstein3D.m_bx b i x *
                Bernstein3D.m_by b j y)%R
               (Bernstein3D.m_nz b) k
               (Bernstein3D.m_zmin b) (Bernstein3D.m_zmax b));
        try assumption; reflexivity.
    + intros i j k Hi Hj Hk.
      rewrite <- Rmult_minus_distr_l.
      now rewrite basic_primitive_increment.
  - intros x Hxd.
    apply (sum3_has_integral _ _ _ _
             (fun i j k u =>
                (Bernstein3D.par3 b i j k * Bernstein3D.m_bx b i x *
                 Bernstein3D.m_by b j u * wz)%R)
             (fun i j k u =>
                (Bernstein3D.par3 b i j k * Bernstein3D.m_bx b i x *
                 Calculus.basic_primitive (Bernstein3D.m_ny b) j
                   (Bernstein3D.m_ymin b) (Bernstein3D.m_ymax b) u * wz)%R));
      try lia; try lra.
    + intros u Hu. reflexivity.
    + intros i j k u Hi Hj Hk Hu.
      apply (basic_primitive_scaled_derivative _
               (Bernstein3D.par3 b i j k * Bernstein3D.m_bx b i x * wz)%R
               (Bernstein3D.m_ny b) j
               (Bernstein3D.m_ymin b) (Bernstein3D.m_ymax b));
        try assumption.
      * intros y. ring.
      * unfold Bernstein3D.m_by. ring.
    + intros i j k Hi Hj Hk.
      rewrite <- Rmult_minus_distr_r, <- Rmult_minus_distr_l.
      now rewrite basic_primitive_increment.
  - apply (sum3_has_integral _ _ _ _
             (fun i j k u =>
                (Bernstein3D.par3 b i j k * Bernstein3D.m_bx b i u *
                 wy * wz)%R)
             (fun i j k u =>
                (Bernstein3D.par3 b i j k *
                 Calculus.basic_primitive (Bernstein3D.m_nx b) i
                   (Bernstein3D.m_xmin b) (Bernstein3D.m_xmax b) u *
                 wy * wz)%R));
      try lia; try lra.
    + intros u Hu. reflexivity.
    + intros i j k u Hi Hj Hk Hu.
      apply (basic_primitive_scaled_derivative _
               (Bernstein3D.par3 b i j k * wy * wz)%R
               (Bernstein3D.m_nx b) i
               (Bernstein3D.m_xmin b) (Bernstein3D.m_xmax b));
        try assumption.
      * intros y. ring.
      * unfold Bernstein3D.m_bx. ring.
    + intros i j k Hi Hj Hk.
      rewrite <- !Rmult_minus_distr_r, <- Rmult_minus_distr_l.
      now rewrite basic_primitive_increment.
Qed.

(** ** Bernstein3D: the full-domain integral in closed form *)













